(** * AI camera tutor: verification of the capture / recognise / analyse pipeline

    A shallow embedding of the application's services and screen logic:

    - [JS]          the JavaScript values the code manipulates (UTF-16 strings,
                    JSON values, property access, truthiness, [JSON.parse]);
    - [OpenAI]      [OpenAIService.analyzeText] (services/openai);
    - [OCR]         [OCRService.recognizeText] (services/ocr);
    - [Camera]      [processCurrentFrame] and the periodic timer (CameraView);
    - [Storage], [SettingsScreen], [CameraScreen]
                    the AsyncStorage-backed settings and history code. *)

From Stdlib Require Import ZArith NArith List String Ascii Lia Bool.
From Stdlib Require Import Floats.SpecFloat.
From stdpp Require Import base option list relations gmap strings.
Import ListNotations.

Set Default Proof Using "Type".
Set Warnings "-register-all".
Local Open Scope N_scope.

(* ===================================================================== *)
(** * JavaScript values *)
(* ===================================================================== *)

Module JS.

(** A JavaScript string is a sequence of UTF-16 code units, a [list N];
    [s.length] counts code units. *)

(** ** Source literals

    String literals of the source are written here as UTF-8 text and turned
    into code units by [utf16]. *)

Definition cont (b : N) : N := N.land b 0x3F.

Fixpoint utf16_of_bytes (bs : list N) : list N :=
  match bs with
  | [] => []
  | b0 :: r0 =>
      if b0 <? 0x80 then b0 :: utf16_of_bytes r0
      else if b0 <? 0xE0 then
        match r0 with
        | b1 :: r1 =>
            N.lor (N.shiftl (N.land b0 0x1F) 6) (cont b1) :: utf16_of_bytes r1
        | _ => []
        end
      else if b0 <? 0xF0 then
        match r0 with
        | b1 :: b2 :: r2 =>
            N.lor (N.shiftl (N.land b0 0x0F) 12)
              (N.lor (N.shiftl (cont b1) 6) (cont b2)) :: utf16_of_bytes r2
        | _ => []
        end
      else
        match r0 with
        | b1 :: b2 :: b3 :: r3 =>
            let cp := N.lor (N.shiftl (N.land b0 0x07) 18)
                        (N.lor (N.shiftl (cont b1) 12)
                           (N.lor (N.shiftl (cont b2) 6) (cont b3))) in
            let v := cp - 0x10000 in
            (0xD800 + N.shiftr v 10) :: (0xDC00 + N.land v 0x3FF)
              :: utf16_of_bytes r3
        | _ => []
        end
  end.

Definition utf16 (s : string) : list N :=
  utf16_of_bytes (map N_of_ascii (list_ascii_of_string s)).

Definition ch (a : ascii) : N := N_of_ascii a.

(** ** String methods *)

(** [s.startsWith(p)] *)
Fixpoint startsWith (s p : list N) : bool :=
  match p, s with
  | [], _ => true
  | _ :: _, [] => false
  | c :: p', d :: s' => (c =? d) && startsWith s' p'
  end.

(** [s.includes(sub)] *)
Fixpoint includes (s sub : list N) : bool :=
  startsWith s sub ||
  match s with
  | [] => false
  | _ :: s' => includes s' sub
  end.

(** [s === t] on strings *)
Fixpoint str_eqb (s t : list N) : bool :=
  match s, t with
  | [], [] => true
  | c :: s', d :: t' => (c =? d) && str_eqb s' t'
  | _, _ => false
  end.

(** The characters matched by [\s] and removed by [trim()]: ECMAScript
    WhiteSpace and LineTerminator. *)
Definition isWhiteSpace (c : N) : bool :=
  ((0x09 <=? c) && (c <=? 0x0D)) || (c =? 0x20) || (c =? 0xA0) ||
  (c =? 0x1680) || ((0x2000 <=? c) && (c <=? 0x200A)) ||
  (c =? 0x2028) || (c =? 0x2029) || (c =? 0x202F) || (c =? 0x205F) ||
  (c =? 0x3000) || (c =? 0xFEFF).

Fixpoint trimStart (s : list N) : list N :=
  match s with
  | [] => []
  | c :: r => if isWhiteSpace c then trimStart r else s
  end.

Definition trimEnd (s : list N) : list N := rev (trimStart (rev s)).

(** [s.trim()] *)
Definition trim (s : list N) : list N := trimEnd (trimStart s).

(** [\d] *)
Definition isDigit (c : N) : bool := (0x30 <=? c) && (c <=? 0x39).

(** [\w] *)
Definition isWord (c : N) : bool :=
  isDigit c || ((0x41 <=? c) && (c <=? 0x5A)) ||
  ((0x61 <=? c) && (c <=? 0x7A)) || (c =? 0x5F).

(** Decimal digits of a non-negative integer, as [String(n)] prints it. *)
Fixpoint digits_fuel (fuel : nat) (n : N) (acc : list N) : list N :=
  match fuel with
  | O => acc
  | S f =>
      let acc' := (0x30 + n mod 10) :: acc in
      if n / 10 =? 0 then acc' else digits_fuel f (n / 10) acc'
  end.

Definition digits (n : N) : list N := digits_fuel (S (N.to_nat (N.log2 n))) n [].

(** ** Numbers

    The numbers the Completion Client handles are the values of JSON number
    literals and of two source literals.  [Dec m e] stands for the double
    nearest to [m * 10^e].  The only numeric operation applied to them is
    the truthiness test, which asks whether that double is zero: a real
    rounds to (plus or minus) zero exactly when its magnitude is at most
    [2^-1075], half of the smallest subnormal. *)

Record Decimal := Dec { mant : Z; exp10 : Z }.

Definition is_zero (d : Decimal) : bool :=
  if (0 <=? exp10 d)%Z then (mant d =? 0)%Z
  else (Z.abs (mant d) * 2 ^ 1075 <=? 10 ^ (- exp10 d))%Z.

(** ** Values *)

Inductive JSVal :=
| JUndefined
| JNull
| JBool (b : bool)
| JNum (d : Decimal)
| JStr (s : list N)
| JArr (elems : list JSVal)
| JObj (props : list (list N * JSVal)).

(** Own properties of an object, most recently defined first: a later
    duplicate key of a JSON text shadows an earlier one. *)
Fixpoint own (props : list (list N * JSVal)) (k : list N) : JSVal :=
  match props with
  | [] => JUndefined
  | (k', v) :: r => if str_eqb k' k then v else own r k
  end.

(** ToBoolean *)
Definition truthy (v : JSVal) : bool :=
  match v with
  | JUndefined | JNull => false
  | JBool b => b
  | JNum d => negb (is_zero d)
  | JStr s => match s with [] => false | _ => true end
  | JArr _ | JObj _ => true
  end.

(** [a || b] *)
Definition or_else (a b : JSVal) : JSVal := if truthy a then a else b.

(** ** Exceptions *)

Inductive JSError :=
| Error (message : list N)
| TypeError (message : list N)
| SyntaxError (message : list N).

Definition message (e : JSError) : list N :=
  match e with Error m | TypeError m | SyntaxError m => m end.

Inductive Outcome (A : Type) :=
| Returned (a : A)
| Threw (e : JSError).
Arguments Returned {A} a.
Arguments Threw {A} e.

Definition bind {A B} (m : Outcome A) (k : A -> Outcome B) : Outcome B :=
  match m with
  | Returned a => k a
  | Threw e => Threw e
  end.

Notation "'let!' x ':=' m 'in' k" := (bind m (fun x => k))
  (at level 10, x name, m at level 100, k at level 200).

(** What the engine decides and the program does not: how a number prints,
    and the message texts of the errors the engine itself raises. *)
Record Engine := {
  numberToString : Decimal -> list N;
  syntaxErrorMessage : list N -> list N;
  typeErrorMessage : list N -> list N
}.

(** ** Conversions and property access *)

(** ToString.  An array prints its elements separated by commas, with
    [null] and [undefined] elements printed as nothing. *)
Fixpoint ToString (E : Engine) (v : JSVal) : list N :=
  match v with
  | JUndefined => utf16 "undefined"
  | JNull => utf16 "null"
  | JBool true => utf16 "true"
  | JBool false => utf16 "false"
  | JNum d => numberToString E d
  | JStr s => s
  | JArr l =>
      (fix join (l : list JSVal) : list N :=
         match l with
         | [] => []
         | x :: r =>
             match x with
             | JUndefined | JNull => []
             | _ => ToString E x
             end ++
             match r with
             | [] => []
             | _ :: _ => ch "," :: join r
             end
         end) l
  | JObj _ => utf16 "[object Object]"
  end.

(** [v.k] for a property name [k] that is neither an array index nor
    [length] nor inherited from a prototype.  Every name the program reads
    with the dot syntax is of this kind. *)
Definition get (E : Engine) (v : JSVal) (k : list N) : Outcome JSVal :=
  match v with
  | JUndefined | JNull => Threw (TypeError (typeErrorMessage E k))
  | JObj props => Returned (own props k)
  | _ => Returned JUndefined
  end.

(** [v?.k] *)
Definition get_opt (E : Engine) (v : JSVal) (k : list N) : Outcome JSVal :=
  match v with
  | JUndefined | JNull => Returned JUndefined
  | _ => get E v k
  end.

(** [v[i]] for an integer index [i] *)
Definition get_index (E : Engine) (v : JSVal) (i : nat) : Outcome JSVal :=
  match v with
  | JUndefined | JNull =>
      Threw (TypeError (typeErrorMessage E (digits (N.of_nat i))))
  | JArr l => Returned (nth i l JUndefined)
  | JStr s =>
      Returned (match nth_error s i with
                | Some c => JStr [c]
                | None => JUndefined
                end)
  | JObj props => Returned (own props (digits (N.of_nat i)))
  | _ => Returned JUndefined
  end.

(** [a === b] where [b] is a string literal *)
Definition strict_eq_str (a : JSVal) (lit : list N) : bool :=
  match a with
  | JStr s => str_eqb s lit
  | _ => false
  end.

(** ** JSON.parse *)

Definition isJsonWs (c : N) : bool :=
  (c =? 0x09) || (c =? 0x0A) || (c =? 0x0D) || (c =? 0x20).

Fixpoint skip_ws (s : list N) : list N :=
  match s with
  | [] => []
  | c :: r => if isJsonWs c then skip_ws r else s
  end.

Definition hexval (c : N) : option N :=
  if isDigit c then Some (c - 0x30)
  else if (0x41 <=? c) && (c <=? 0x46) then Some (c - 0x41 + 10)
  else if (0x61 <=? c) && (c <=? 0x66) then Some (c - 0x61 + 10)
  else None.

Definition unescape (c : N) : option N :=
  if c =? 0x22 then Some 0x22
  else if c =? 0x5C then Some 0x5C
  else if c =? ch "/" then Some 0x2F
  else if c =? ch "b" then Some 0x08
  else if c =? ch "f" then Some 0x0C
  else if c =? ch "n" then Some 0x0A
  else if c =? ch "r" then Some 0x0D
  else if c =? ch "t" then Some 0x09
  else None.

Definition cons_char (c : N) (p : option (list N * list N))
  : option (list N * list N) :=
  match p with
  | Some (t, rest) => Some (c :: t, rest)
  | None => None
  end.

(** The characters of a string literal, read after its opening quote up to
    and including the closing quote. *)
Fixpoint parse_chars (s : list N) : option (list N * list N) :=
  match s with
  | [] => None
  | c :: r =>
      if c =? 0x22 then Some ([], r)
      else if c <? 0x20 then None
      else if c =? 0x5C then
        match r with
        | [] => None
        | e :: r1 =>
            if e =? ch "u" then
              match r1 with
              | h1 :: h2 :: h3 :: h4 :: r2 =>
                  match hexval h1, hexval h2, hexval h3, hexval h4 with
                  | Some a, Some b, Some c', Some d =>
                      cons_char (((a * 16 + b) * 16 + c') * 16 + d)
                        (parse_chars r2)
                  | _, _, _, _ => None
                  end
              | _ => None
              end
            else
              match unescape e with
              | Some u => cons_char u (parse_chars r1)
              | None => None
              end
        end
      else cons_char c (parse_chars r)
  end.

(** A maximal run of digits: the accumulated value, the number of digits
    read, and the rest. *)
Fixpoint take_digits (s : list N) (acc : Z) (count : Z) : Z * Z * list N :=
  match s with
  | c :: r =>
      if isDigit c
      then take_digits r (acc * 10 + Z.of_N (c - 0x30))%Z (count + 1)%Z
      else (acc, count, s)
  | [] => (acc, count, s)
  end.

Definition parse_int (s : list N) : option (Z * list N) :=
  match s with
  | c :: r =>
      if c =? ch "0" then Some (0%Z, r)
      else if isDigit c then
        let '(v, _, rest) := take_digits s 0%Z 0%Z in Some (v, rest)
      else None
  | [] => None
  end.

Definition parse_frac (m : Z) (s : list N) : option (Z * Z * list N) :=
  match s with
  | c :: r =>
      if c =? ch "." then
        let '(v, k, rest) := take_digits r m 0%Z in
        if (k =? 0)%Z then None else Some (v, k, rest)
      else Some (m, 0%Z, s)
  | [] => Some (m, 0%Z, s)
  end.

Definition parse_exp (s : list N) : option (Z * list N) :=
  match s with
  | c :: r =>
      if (c =? ch "e") || (c =? ch "E") then
        let '(neg, r1) :=
          match r with
          | c1 :: r' =>
              if c1 =? ch "-" then (true, r')
              else if c1 =? ch "+" then (false, r')
              else (false, r)
          | [] => (false, r)
          end in
        let '(v, k, rest) := take_digits r1 0%Z 0%Z in
        if (k =? 0)%Z then None
        else Some (if neg : bool then (- v)%Z else v, rest)
      else Some (0%Z, s)
  | [] => Some (0%Z, s)
  end.

Definition parse_number (s : list N) : option (JSVal * list N) :=
  let '(neg, s1) :=
    match s with
    | c :: r => if c =? ch "-" then (true, r) else (false, s)
    | [] => (false, s)
    end in
  match parse_int s1 with
  | None => None
  | Some (i, s2) =>
      match parse_frac i s2 with
      | None => None
      | Some (m, k, s3) =>
          match parse_exp s3 with
          | None => None
          | Some (e, s4) =>
              Some (JNum (Dec (if neg : bool then (- m)%Z else m) (e - k)%Z), s4)
          end
      end
  end.

(** The result of a parser that runs on fuel: a value with the rest of the
    input, a syntax error, or fuel that ran out. *)
Inductive Parse :=
| Parsed (v : JSVal) (rest : list N)
| Invalid
| OutOfFuel.

Definition of_option (p : option (JSVal * list N)) : Parse :=
  match p with
  | Some (v, rest) => Parsed v rest
  | None => Invalid
  end.

Fixpoint parse_value (fuel : nat) (s : list N) : Parse :=
  match fuel with
  | O => OutOfFuel
  | S f =>
      match skip_ws s with
      | [] => Invalid
      | c :: r =>
          if c =? ch "{" then
            match skip_ws r with
            | c' :: r' =>
                if c' =? ch "}" then Parsed (JObj []) r'
                else parse_members f r []
            | [] => Invalid
            end
          else if c =? ch "[" then
            match skip_ws r with
            | c' :: r' =>
                if c' =? ch "]" then Parsed (JArr []) r'
                else parse_elements f r []
            | [] => Invalid
            end
          else if c =? 0x22 then
            match parse_chars r with
            | Some (t, rest) => Parsed (JStr t) rest
            | None => Invalid
            end
          else if startsWith (c :: r) (utf16 "true")
          then Parsed (JBool true) (drop 4 (c :: r))
          else if startsWith (c :: r) (utf16 "false")
          then Parsed (JBool false) (drop 5 (c :: r))
          else if startsWith (c :: r) (utf16 "null")
          then Parsed JNull (drop 4 (c :: r))
          else of_option (parse_number (c :: r))
      end
  end
with parse_elements (fuel : nat) (s : list N) (acc : list JSVal) : Parse :=
  match fuel with
  | O => OutOfFuel
  | S f =>
      match parse_value f s with
      | Parsed v r =>
          match skip_ws r with
          | c :: r' =>
              if c =? ch "," then parse_elements f r' (v :: acc)
              else if c =? ch "]" then Parsed (JArr (rev (v :: acc))) r'
              else Invalid
          | [] => Invalid
          end
      | Invalid => Invalid
      | OutOfFuel => OutOfFuel
      end
  end
with parse_members (fuel : nat) (s : list N) (acc : list (list N * JSVal))
  : Parse :=
  match fuel with
  | O => OutOfFuel
  | S f =>
      match skip_ws s with
      | c :: r =>
          if c =? 0x22 then
            match parse_chars r with
            | None => Invalid
            | Some (k, r1) =>
                match skip_ws r1 with
                | c1 :: r2 =>
                    if c1 =? ch ":" then
                      match parse_value f r2 with
                      | Parsed v r3 =>
                          match skip_ws r3 with
                          | c3 :: r4 =>
                              if c3 =? ch ","
                              then parse_members f r4 ((k, v) :: acc)
                              else if c3 =? ch "}"
                              then Parsed (JObj ((k, v) :: acc)) r4
                              else Invalid
                          | [] => Invalid
                          end
                      | Invalid => Invalid
                      | OutOfFuel => OutOfFuel
                      end
                    else Invalid
                | [] => Invalid
                end
            end
          else Invalid
      | [] => Invalid
      end
  end.

(** [JSON.parse(text)]: [None] stands for the SyntaxError it throws.  The
    fuel given is enough for every text (see [JSON_parse_fuel]): each
    nested call consumes a character for at most two units of fuel. *)
Definition JSON_parse (text : list N) : option JSVal :=
  match parse_value (2 * length text + 2) text with
  | Parsed v rest =>
      match skip_ws rest with
      | [] => Some v
      | _ :: _ => None
      end
  | Invalid => None
  | OutOfFuel => None
  end.

End JS.

(* ===================================================================== *)
(** * The Completion Client: [OpenAIService] *)
(* ===================================================================== *)

Module OpenAI.
Import JS.

(** The request handed to [fetch]: the fixed URL, method, model, system
    prompt, [max_tokens] and [temperature] are constants of the source; the
    two parts that vary are kept. *)
Record Request := {
  authorization : list N;
  userContent : list N
}.

(** What [await fetch(...)] gives: a rejection, or a response with its status
    and body text. *)
Inductive FetchOutcome :=
| Rejected (e : JSError)
| Response (status : N) (body : list N).

(** [response.ok] *)
Definition ok (status : N) : bool := (200 <=? status) && (status <=? 299).

(** [await response.json()] *)
Definition response_json (E : Engine) (body : list N) : Outcome JSVal :=
  match JSON_parse body with
  | Some v => Returned v
  | None => Threw (SyntaxError (syntaxErrorMessage E body))
  end.

(** The messages of the errors thrown by [analyzeText]. *)
Definition MSG_KEY_NOT_SET : list N := utf16 "OpenAI API key not set".
Definition MSG_INVALID_KEY : list N :=
  utf16 "APIキーが無効です。正しいOpenAI APIキーを設定してください。".
Definition MSG_QUOTA : list N :=
  utf16 "OpenAI APIの利用枠を超過しました。プランと請求詳細を確認してください。".
Definition MSG_RATE_LIMIT : list N :=
  utf16 "API利用制限に達しました。しばらく待ってから再試行してください。".
Definition MSG_FORBIDDEN : list N :=
  utf16 "APIアクセスが拒否されました。APIキーの権限を確認してください。".
Definition MSG_API_ERROR (status : N) (upstream : list N) : list N :=
  utf16 "API error: " ++ digits status ++ utf16 " - " ++ upstream.

Definition NO_ANSWER : list N := utf16 "No answer provided".
Definition NO_EXPLANATION : list N := utf16 "No explanation provided".
Definition FILLER : list N := utf16 "GPT-4による回答".

Record Analysis := {
  answer : JSVal;
  explanation : JSVal;
  confidence : JSVal
}.

(** [data.choices[0].message.content] *)
Definition message_content (E : Engine) (data : JSVal) : Outcome JSVal :=
  let! choices := get E data (utf16 "choices") in
  let! first := get_index E choices 0 in
  let! msg := get E first (utf16 "message") in
  get E msg (utf16 "content").

(** The body of the inner [try]: parse the content and read its three
    fields, each with its default. *)
Definition parsed_answer (E : Engine) (content : JSVal) : Outcome Analysis :=
  match JSON_parse (ToString E content) with
  | None => Threw (SyntaxError (syntaxErrorMessage E (ToString E content)))
  | Some parsed =>
      let! a := get E parsed (utf16 "answer") in
      let! e := get E parsed (utf16 "explanation") in
      let! c := get E parsed (utf16 "confidence") in
      Returned {| answer := or_else a (JStr NO_ANSWER);
                  explanation := or_else e (JStr NO_EXPLANATION);
                  confidence := or_else c (JNum (Dec 5 (-1))) |}
  end.

(** The inner [catch]: the raw content with the filler explanation. *)
Definition raw_answer (content : JSVal) : Analysis :=
  {| answer := content;
     explanation := JStr FILLER;
     confidence := JNum (Dec 8 (-1)) |}.

(** The branch taken when [!response.ok]. *)
Definition fail_with_status (E : Engine) (status : N) (body : list N)
  : Outcome Analysis :=
  let! errorData := response_json E body in
  if status =? 401 then Threw (Error MSG_INVALID_KEY)
  else if status =? 429 then
    let! err := get E errorData (utf16 "error") in
    let! code := get_opt E err (utf16 "code") in
    if strict_eq_str code (utf16 "insufficient_quota")
    then Threw (Error MSG_QUOTA)
    else Threw (Error MSG_RATE_LIMIT)
  else if status =? 403 then Threw (Error MSG_FORBIDDEN)
  else
    let! err := get E errorData (utf16 "error") in
    let! m := get_opt E err (utf16 "message") in
    Threw (Error (MSG_API_ERROR status
                    (ToString E (or_else m (JStr (utf16 "Unknown error")))))).

(** The request [analyzeText] sends. *)
Definition request (apiKey text : list N) : Request :=
  {| authorization := utf16 "Bearer " ++ apiKey; userContent := text |}.

(** [analyzeText(text)] of a service whose key is [apiKey].  The outer
    [catch] logs and rethrows, so it does not show here. *)
Definition analyzeText (E : Engine) (fetch : Request -> FetchOutcome)
    (apiKey text : list N) : Outcome Analysis :=
  match apiKey with
  | [] => Threw (Error MSG_KEY_NOT_SET)
  | _ :: _ =>
      match fetch (request apiKey text) with
      | Rejected e => Threw e
      | Response status body =>
          if negb (ok status) then fail_with_status E status body
          else
            let! data := response_json E body in
            let! content := message_content E data in
            match parsed_answer E content with
            | Returned r => Returned r
            | Threw _ => Returned (raw_answer content)
            end
      end
  end.

(** ** The error kinds of the specification

    The code has one error class and tells the kinds apart by message. *)
Definition NotConfiguredError : JSError := Error MSG_KEY_NOT_SET.
Definition InvalidCredential : JSError := Error MSG_INVALID_KEY.
Definition QuotaExceeded : JSError := Error MSG_QUOTA.
Definition RateLimited : JSError := Error MSG_RATE_LIMIT.
Definition Forbidden : JSError := Error MSG_FORBIDDEN.
Definition UpstreamError (status : N) (upstream : list N) : JSError :=
  Error (MSG_API_ERROR status upstream).

(** The field [k] of a JSON value, read off the data: absent on anything
    that is not an object. *)
Definition field (v : JSVal) (k : string) : JSVal :=
  match v with
  | JObj props => own props (utf16 k)
  | _ => JUndefined
  end.

(** The error body carries the quota-exceeded code at [error.code]. *)
Definition has_quota_code (errorData : JSVal) : bool :=
  match field (field errorData "error") "code" with
  | JStr s => str_eqb s (utf16 "insufficient_quota")
  | _ => false
  end.

(** The upstream message at [error.message], or the fixed text when there
    is none. *)
Definition upstream_message (E : Engine) (errorData : JSVal) : list N :=
  let m := field (field errorData "error") "message" in
  if truthy m then ToString E m else utf16 "Unknown error".

(** A JSON text written with single quotes standing for double quotes. *)
Definition json (s : string) : list N :=
  map (fun c => if c =? 0x27 then 0x22 else c) (utf16 s).

(** An engine to evaluate examples with. *)
Definition sampleEngine : Engine :=
  {| numberToString := fun d => digits (Z.to_N (mant d));
     syntaxErrorMessage := fun _ => utf16 "Unexpected token";
     typeErrorMessage := fun _ => utf16 "Cannot read properties" |}.

End OpenAI.

(* ===================================================================== *)
(** * The Text Recognition Adapter: [OCRService] *)
(* ===================================================================== *)

Module OCR.
Import JS.

(** ** Numbers

    The recognition engine reports its confidence as a double, which the
    adapter divides and compares: binary64 values as [spec_float]. *)
Definition prec : Z := 53.
Definition emax : Z := 1024.

(** The literals [0.1] and [100]. *)
Definition lit_0_1 : spec_float := S754_finite false 7205759403792794 (-56).
Definition lit_100 : spec_float := S754_finite false 7036874417766400 (-46).

(** [a / b] *)
Definition div (a b : spec_float) : spec_float := SFdiv prec emax a b.

(** [Math.max(a, b)]: NaN when either is NaN, and [+0] above [-0]. *)
Definition Math_max (a b : spec_float) : spec_float :=
  match SFcompare a b with
  | None => S754_nan
  | Some Lt => b
  | Some Gt => a
  | Some Eq =>
      match a, b with
      | S754_zero true, S754_zero false => b
      | _, _ => a
      end
  end.

(** ** Text clean-up *)

(** [.replace(/\s+/g, ' ')]: the scan emits one space when it enters a run
    of whitespace and nothing for the rest of the run. *)
Fixpoint replace_ws_runs (in_run : bool) (s : list N) : list N :=
  match s with
  | [] => []
  | c :: r =>
      if isWhiteSpace c
      then (if in_run then replace_ws_runs true r
            else 0x20 :: replace_ws_runs true r)
      else c :: replace_ws_runs false r
  end.

(** The negated character class of the second regular expression:
    word characters, whitespace, U+3040..U+309F, U+30A0..U+30FF,
    U+4E00..U+9FAF, [+ - = ( ) ? !], the multiplication and division signs,
    and the ideographic full stop and comma. *)
Definition in_class (c : N) : bool :=
  isWord c || isWhiteSpace c ||
  ((0x3040 <=? c) && (c <=? 0x309F)) ||
  ((0x30A0 <=? c) && (c <=? 0x30FF)) ||
  ((0x4E00 <=? c) && (c <=? 0x9FAF)) ||
  (c =? 0x2B) || (c =? 0x2D) || (c =? 0xD7) || (c =? 0xF7) || (c =? 0x3D) ||
  (c =? 0x28) || (c =? 0x29) || (c =? 0x3F) || (c =? 0x21) ||
  (c =? 0x3002) || (c =? 0x3001).

(** [.replace(/[^...]/g, '')] *)
Definition remove_unlisted (s : list N) : list N := List.filter in_class s.

Definition cleanText (raw : list N) : list N :=
  trim (remove_unlisted (replace_ws_runs false raw)).

(** ** [recognizeText] *)

Record OCRResult := {
  text : list N;
  confidence : spec_float
}.

(** What the worker holds when [recognizeText] reaches it: lazy
    initialisation failed, there is no worker, or [worker.recognize]
    rejects or resolves with the engine's raw text and confidence. *)
Inductive Worker :=
| InitFails
| NoWorker
| RecognizeRejects
| RecognizeData (rawText : list N) (rawConfidence : spec_float).

Definition MSG_INIT_FAILED : list N := utf16 "OCRの初期化に失敗しました".
Definition MSG_NO_WORKER : list N := utf16 "OCRワーカーが初期化されていません".
Definition MSG_RECOGNITION_FAILED : list N := utf16 "テキスト認識に失敗しました".

Definition recognizeText (w : Worker) : Outcome OCRResult :=
  match w with
  | InitFails => Threw (Error MSG_INIT_FAILED)
  | NoWorker => Threw (Error MSG_NO_WORKER)
  | RecognizeRejects => Threw (Error MSG_RECOGNITION_FAILED)
  | RecognizeData rawText rawConfidence =>
      Returned {| text := cleanText rawText;
                  confidence := Math_max lit_0_1 (div rawConfidence lit_100) |}
  end.

(** ** The clean-up in the specification's words *)

(** Every run of whitespace becomes a single space. *)
Fixpoint collapse_fuel (fuel : nat) (s : list N) : list N :=
  match fuel, s with
  | S f, c :: r =>
      if isWhiteSpace c then 0x20 :: collapse_fuel f (trimStart r)
      else c :: collapse_fuel f r
  | _, _ => []
  end.

Definition collapse_whitespace (s : list N) : list N :=
  collapse_fuel (length s) s.

Definition ascii_alphanumeric (c : N) : bool :=
  ((0x30 <=? c) && (c <=? 0x39)) || ((0x41 <=? c) && (c <=? 0x5A)) ||
  ((0x61 <=? c) && (c <=? 0x7A)).

(** Hiragana and katakana blocks. *)
Definition syllabary (c : N) : bool := (0x3040 <=? c) && (c <=? 0x30FF).

Definition kanji (c : N) : bool := (0x4E00 <=? c) && (c <=? 0x9FAF).

(** The arithmetic and punctuation characters kept, the space among them. *)
Definition punctuation : list N :=
  [0x20; 0x5F; 0x2B; 0x2D; 0xD7; 0xF7; 0x3D; 0x28; 0x29; 0x3F; 0x21;
   0x3002; 0x3001].

Definition allowed (c : N) : bool :=
  ascii_alphanumeric c || syllabary c || kanji c ||
  existsb (N.eqb c) punctuation.

Definition strip_disallowed (s : list N) : list N := List.filter allowed s.

(** The text as the specification describes it: collapse, then strip. *)
Definition described_text (raw : list N) : list N :=
  strip_disallowed (collapse_whitespace raw).

(** After the first replacement the only whitespace left is U+0020. *)
Definition plain_space (c : N) : Prop := isWhiteSpace c = true -> c = 0x20.

End OCR.

(* ===================================================================== *)
(** * The Capture Orchestrator: [CameraViewComponent] *)
(* ===================================================================== *)

Module Camera.
Import JS.

(** The component's React state and its [processingRef]. *)
Record State := {
  realtimeEnabled : bool;
  isProcessing : bool;
  lastProcessTime : Z;
  processingRef : bool
}.

Definition setProcessingRef (b : bool) (st : State) : State :=
  {| realtimeEnabled := realtimeEnabled st; isProcessing := isProcessing st;
     lastProcessTime := lastProcessTime st; processingRef := b |}.

Definition setIsProcessing (b : bool) (st : State) : State :=
  {| realtimeEnabled := realtimeEnabled st; isProcessing := b;
     lastProcessTime := lastProcessTime st; processingRef := processingRef st |}.

Definition setLastProcessTime (t : Z) (st : State) : State :=
  {| realtimeEnabled := realtimeEnabled st; isProcessing := isProcessing st;
     lastProcessTime := t; processingRef := processingRef st |}.

Definition setRealtimeEnabled (b : bool) (st : State) : State :=
  {| realtimeEnabled := b; isProcessing := isProcessing st;
     lastProcessTime := lastProcessTime st; processingRef := processingRef st |}.

(** What the component does to the outside.  The [id] and [timestamp] fields
    of the objects handed to [onResult] are clock readings and are left
    out. *)
Inductive Effect :=
| ConsoleError (e : JSError)
| Alert (title message : list N)
| OnResult (ocr : OCR.OCRResult) (ai : OpenAI.Analysis).

Inductive PhotoOutcome :=
| PhotoRejects (e : JSError)
| PhotoWithoutUri
| PhotoUri.

(** The asynchronous calls the pipeline awaits, indexed by what they
    resolve to. *)
Inductive Call : Type -> Type :=
| TakePicture : Call PhotoOutcome
| RecognizeText : Call (Outcome OCR.OCRResult)
| AnalyzeText (text : list N) : Call (Outcome OpenAI.Analysis).

(** A suspended [async] function: finished, or waiting on a call with the
    code that runs, on the state of that moment, when the call settles. *)
Inductive Task :=
| Finished
| Await (R : Type) (call : Call R) (resume : R -> State -> Resumed)
with Resumed :=
| Resume (st : State) (effects : list Effect) (rest : Task).
Arguments Await {R} call resume.

Definition state_of (r : Resumed) : State :=
  match r with Resume st _ _ => st end.
Definition effects_of (r : Resumed) : list Effect :=
  match r with Resume _ effs _ => effs end.
Definition rest_of (r : Resumed) : Task :=
  match r with Resume _ _ t => t end.

(** ** [processCurrentFrame] *)

(** [/\d+/.test(text)]: one or more digits match at some position exactly
    when some character is a digit. *)
Fixpoint test_digits (s : list N) : bool :=
  match s with
  | [] => false
  | c :: r => isDigit c || test_digits r
  end.

(** The condition guarding the call to the Completion Client. *)
Definition looksLikeQuestion (text : list N) : bool :=
  truthy (JStr text) && (10 <? length text)%nat &&
  (includes text [ch "?"] || includes text [0xFF1F] ||
   includes text [ch "="] || includes text [0xFF1D] ||
   test_digits text).

(** The [finally] block. *)
Definition finally (st : State) (effects : list Effect) : Resumed :=
  Resume (setIsProcessing false (setProcessingRef false st)) effects Finished.

(** The [catch] block, followed by [finally]. *)
Definition catch (e : JSError) (st : State) : Resumed :=
  if includes (message e) (utf16 "API利用制限") ||
     includes (message e) (utf16 "APIキーが無効")
  then finally (setRealtimeEnabled false st)
         [ConsoleError e; Alert (utf16 "API エラー") (message e)]
  else finally st [ConsoleError e].

Definition afterAnalyze (ocr : OCR.OCRResult)
    (r : Outcome OpenAI.Analysis) (st : State) : Resumed :=
  match r with
  | Threw e => catch e st
  | Returned ai => finally (setRealtimeEnabled false st) [OnResult ocr ai]
  end.

Definition afterRecognize (r : Outcome OCR.OCRResult) (st : State)
  : Resumed :=
  match r with
  | Threw e => catch e st
  | Returned ocr =>
      if looksLikeQuestion (OCR.text ocr)
      then Resume (setIsProcessing true st) []
             (Await (AnalyzeText (OCR.text ocr)) (afterAnalyze ocr))
      else finally st []
  end.

Definition afterPhoto (p : PhotoOutcome) (st : State) : Resumed :=
  match p with
  | PhotoRejects e => catch e st
  | PhotoWithoutUri => finally st []
  | PhotoUri => Resume st [] (Await RecognizeText afterRecognize)
  end.

(** What one invocation sees besides the state: whether [cameraRef] is set,
    the clock, and the [lastProcessTime] its closure captured. *)
Record Seen := {
  cameraReady : bool;
  now : Z;
  capturedLastProcessTime : Z
}.

Definition processCurrentFrame (seen : Seen) (st : State) : Resumed :=
  if negb (cameraReady seen) || processingRef st then Resume st [] Finished
  else if (now seen - capturedLastProcessTime seen <? 2000)%Z
  then Resume st [] Finished
  else Resume (setLastProcessTime (now seen) (setProcessingRef true st)) []
         (Await TakePicture afterPhoto).

(** ** Running one attempt to its end *)

(** The settled value of every call of one attempt. *)
Record World := {
  photo : PhotoOutcome;
  recognized : Outcome OCR.OCRResult;
  analysed : list N -> Outcome OpenAI.Analysis
}.

Definition settle (w : World) {R} (c : Call R) : R :=
  match c in Call R return R with
  | TakePicture => photo w
  | RecognizeText => recognized w
  | AnalyzeText text => analysed w text
  end.

(** The outcome of an attempt: the final state, the effects in order, and
    the texts sent to the Completion Client. *)
Record Run := {
  final : State;
  trace : list Effect;
  sent : list (list N)
}.

Definition sent_by {R} (c : Call R) : list (list N) :=
  match c with
  | AnalyzeText text => [text]
  | _ => []
  end.

Fixpoint run_task (w : World) (t : Task) (st : State) (effs : list Effect)
    (texts : list (list N)) : Run :=
  match t with
  | Finished => {| final := st; trace := effs; sent := texts |}
  | Await c resume =>
      match resume (settle w c) st with
      | Resume st' effs' rest =>
          run_task w rest st' (effs ++ effs') (texts ++ sent_by c)
      end
  end.

Definition run (w : World) (r : Resumed) : Run :=
  match r with
  | Resume st effs rest => run_task w rest st effs []
  end.

(** The world of an attempt whose worker and network are given. *)
Definition world (E : Engine) (p : PhotoOutcome) (wk : OCR.Worker)
    (fetch : OpenAI.Request -> OpenAI.FetchOutcome) (apiKey : list N)
  : World :=
  {| photo := p;
     recognized := OCR.recognizeText wk;
     analysed := OpenAI.analyzeText E fetch apiKey |}.

(** ** The timer *)

(** The suspended attempts next to the state they share. *)
Record Config := {
  state : State;
  running : list Task
}.

Definition start (r : Resumed) (cfg : Config) : Config :=
  match r with
  | Resume st _ Finished => {| state := st; running := running cfg |}
  | Resume st _ t => {| state := st; running := running cfg ++ [t] |}
  end.

(** The callback given to [setInterval], with the [isProcessing] its
    closure captured. *)
Definition tick (capturedIsProcessing : bool) (seen : Seen) (cfg : Config)
  : Config :=
  if negb (processingRef (state cfg)) && negb capturedIsProcessing
  then start (processCurrentFrame seen (state cfg)) cfg
  else cfg.

(** The [i]-th suspended attempt resumes with the settled value [r]. *)
Definition resume_at (i : nat) (r : Resumed) (cfg : Config) : Config :=
  match r with
  | Resume st _ Finished =>
      {| state := st; running := take i (running cfg) ++ drop (S i) (running cfg) |}
  | Resume st _ t =>
      {| state := st; running := <[i := t]> (running cfg) |}
  end.

(** Any other event of the component (a button, the manual capture, a
    re-render) changes React state and leaves [processingRef] alone. *)
Definition same_ref (st st' : State) : Prop :=
  processingRef st' = processingRef st.

Inductive step : Config -> Config -> Prop :=
| step_tick cfg capturedIsProcessing seen :
    step cfg (tick capturedIsProcessing seen cfg)
| step_settle cfg i R (c : Call R) resume (r : R) :
    running cfg !! i = Some (Await c resume) ->
    step cfg (resume_at i (resume r (state cfg)) cfg)
| step_other cfg st' :
    same_ref (state cfg) st' ->
    step cfg {| state := st'; running := running cfg |}.

Definition initial : Config :=
  {| state := {| realtimeEnabled := false; isProcessing := false;
                 lastProcessTime := 0; processingRef := false |};
     running := [] |}.

(** A suspended attempt holds the guard: whenever it resumes with the guard
    set it either finishes and releases the guard, or suspends again with
    the guard still set. *)
Fixpoint holds_guard (t : Task) : Prop :=
  match t with
  | Finished => False
  | Await _ resume =>
      forall r st, processingRef st = true -> keeps_guard (resume r st)
  end
with keeps_guard (r : Resumed) : Prop :=
  match r with
  | Resume st _ Finished => processingRef st = false
  | Resume st _ t => processingRef st = true /\ holds_guard t
  end.

(** No attempt in flight and the guard free, or one attempt in flight
    holding the guard. *)
Definition guarded (cfg : Config) : Prop :=
  (running cfg = [] /\ processingRef (state cfg) = false) \/
  (exists t, running cfg = [t] /\ processingRef (state cfg) = true /\
             holds_guard t).

End Camera.

(* ===================================================================== *)
(** * Persistence: AsyncStorage, the settings screen, the camera screen *)
(* ===================================================================== *)

Module App.
Import JS.

(** An entry of the history.  The objects handed to [onResult] are kept as
    the adapter and the client produced them; their own [id], [question] and
    [timestamp] fields repeat the text or read the clock. *)
Record HistoryItem := {
  id : list N;
  ocrResult : OCR.OCRResult;
  aiResponse : OpenAI.Analysis
}.

(** AsyncStorage as the application uses it.  The entries that hold plain
    strings are a map from key to string.  The entry [analysis_history] is
    only ever written as [JSON.stringify] of an array of items and read back
    with [JSON.parse]; it is kept decoded, [None] when the key is absent. *)
Record AsyncStorage := {
  strings : gmap string (list N);
  history : option (list HistoryItem)
}.

Definition OPENAI_API_KEY : string := "openai_api_key".
Definition AUTO_CAPTURE : string := "auto_capture".
Definition SAVE_HISTORY : string := "save_history".

(** [AsyncStorage.setItem(key, value)] on a string entry *)
Definition setItem (key : string) (value : list N) (s : AsyncStorage)
  : AsyncStorage :=
  {| strings := <[key := value]> (strings s); history := history s |}.

(** [AsyncStorage.setItem('analysis_history', JSON.stringify(items))] *)
Definition setHistory (items : list HistoryItem) (s : AsyncStorage)
  : AsyncStorage :=
  {| strings := strings s; history := Some items |}.

(** The storage and the [OpenAIService] singleton's key. *)
Record Shared := {
  storage : AsyncStorage;
  serviceKey : list N
}.

Inductive Alert := AlertBox (title message : list N).

(** ** The settings screen *)

Record Settings := {
  apiKey : list N;
  autoCapture : JSVal;
  saveHistory : JSVal
}.

Definition initialSettings : Settings :=
  {| apiKey := []; autoCapture := JBool false; saveHistory := JBool true |}.

(** [loadSettings]; [readOk] tells whether the three [getItem] calls
    resolve.  A [JSON.parse] that throws ends the function in its [catch],
    with the setters before it already applied. *)
Definition loadSettings (readOk : bool) (sh : Shared) (ui : Settings)
  : Shared * Settings :=
  if negb readOk then (sh, ui)
  else
    let stored := strings (storage sh) in
    let '(sh1, ui1) :=
      match stored !! OPENAI_API_KEY with
      | Some (c :: k) =>
          ({| storage := storage sh; serviceKey := c :: k |},
           {| apiKey := c :: k; autoCapture := autoCapture ui;
              saveHistory := saveHistory ui |})
      | _ => (sh, ui)
      end in
    let auto :=
      match stored !! AUTO_CAPTURE with
      | Some (c :: t) => JSON_parse (c :: t)
      | _ => Some (autoCapture ui1)
      end in
    match auto with
    | None => (sh1, ui1)
    | Some a =>
        let ui2 := {| apiKey := apiKey ui1; autoCapture := a;
                      saveHistory := saveHistory ui1 |} in
        match stored !! SAVE_HISTORY with
        | None => (sh1, ui2)
        | Some t =>
            match JSON_parse t with
            | None => (sh1, ui2)
            | Some v =>
                (sh1, {| apiKey := apiKey ui2; autoCapture := autoCapture ui2;
                         saveHistory := v |})
            end
        end
    end.

(** [saveApiKey]; [writeOk] tells whether [setItem] resolves. *)
Definition saveApiKey (writeOk : bool) (ui : Settings) (sh : Shared)
  : Shared * list Alert :=
  match trim (apiKey ui) with
  | [] => (sh, [AlertBox (utf16 "エラー") (utf16 "APIキーを入力してください")])
  | _ :: _ =>
      if negb (startsWith (apiKey ui) (utf16 "sk-"))
      then (sh, [AlertBox (utf16 "エラー")
                   (utf16 "正しいOpenAI APIキーを入力してください（sk-で始まる）")])
      else if writeOk
      then ({| storage := setItem OPENAI_API_KEY (trim (apiKey ui)) (storage sh);
               serviceKey := trim (apiKey ui) |},
            [AlertBox (utf16 "成功") (utf16 "APIキーが保存されました")])
      else (sh, [AlertBox (utf16 "エラー") (utf16 "APIキーの保存に失敗しました")])
  end.

(** The text field: [onChangeText={setApiKey}]. *)
Definition typeApiKey (value : list N) (ui : Settings) : Settings :=
  {| apiKey := value; autoCapture := autoCapture ui;
     saveHistory := saveHistory ui |}.

(** [JSON.stringify] of a boolean *)
Definition stringify_bool (b : bool) : list N :=
  if b then utf16 "true" else utf16 "false".

(** [toggleSaveHistory(value)] *)
Definition toggleSaveHistory (writeOk : bool) (value : bool)
    (ui : Settings) (sh : Shared) : Shared * Settings :=
  ((if writeOk
    then {| storage := setItem SAVE_HISTORY (stringify_bool value) (storage sh);
            serviceKey := serviceKey sh |}
    else sh),
   {| apiKey := apiKey ui; autoCapture := autoCapture ui;
      saveHistory := JBool value |}).

(** ** The camera screen *)

(** [handleResult(ocrResult, aiResponse)], the [onResult] of the camera
    component; [readOk] and [writeOk] tell whether [getItem] and [setItem]
    resolve, [now] is [Date.now()].  A rejection lands in the [catch], which
    logs. *)
Definition handleResult (readOk writeOk : bool) (now : N)
    (ocr : OCR.OCRResult) (ai : OpenAI.Analysis) (sh : Shared) : Shared :=
  if negb readOk then sh
  else
    let existing :=
      match history (storage sh) with
      | Some items => items
      | None => []
      end in
    let newItem := {| id := digits now; ocrResult := ocr; aiResponse := ai |} in
    let unshifted := newItem :: existing in
    let trimmedHistory := take 20 unshifted in
    if writeOk
    then {| storage := setHistory trimmedHistory (storage sh);
            serviceKey := serviceKey sh |}
    else sh.

(** One call of [handleResult] with everything it is given. *)
Record Append := {
  readOk : bool;
  writeOk : bool;
  now : N;
  ocr : OCR.OCRResult;
  ai : OpenAI.Analysis
}.

Definition append (sh : Shared) (a : Append) : Shared :=
  handleResult (readOk a) (writeOk a) (now a) (ocr a) (ai a) sh.

(** The item that call puts together. *)
Definition item (a : Append) : HistoryItem :=
  {| id := digits (now a); ocrResult := ocr a; aiResponse := ai a |}.

Definition appends (l : list Append) (sh : Shared) : Shared :=
  fold_left append l sh.

(** The stored history, empty when the key is absent. *)
Definition stored (sh : Shared) : list HistoryItem :=
  match history (storage sh) with
  | Some items => items
  | None => []
  end.

(** The camera component reports a result: its [OnResult] effects reach
    [handleResult]. *)
Definition deliver (readOk writeOk : bool) (now : N) (e : Camera.Effect)
    (sh : Shared) : Shared :=
  match e with
  | Camera.OnResult ocr ai => handleResult readOk writeOk now ocr ai sh
  | _ => sh
  end.

End App.

(* ===================================================================== *)
(** * Concrete inputs used by the examples *)
(* ===================================================================== *)

Module Samples.
Import JS.

Definition key : list N := utf16 "sk-test".

(** The value a JSON text parses to. *)
Definition parsedOf (t : list N) : JSVal :=
  match JSON_parse t with
  | Some v => v
  | None => JUndefined
  end.

(** A network that answers every request with the same response. *)
Definition answering (status : N) (body : list N)
  : OpenAI.Request -> OpenAI.FetchOutcome :=
  fun _ => OpenAI.Response status body.

Definition quotaBody : list N :=
  OpenAI.json "{'error':{'message':'You exceeded your current quota','type':'insufficient_quota','code':'insufficient_quota'}}".

Definition forbiddenBody : list N :=
  OpenAI.json "{'error':{'message':'Country not supported','code':'unsupported_country'}}".

Definition htmlBody : list N := utf16 "<html>Unauthorized</html>".

(** A completion whose message content is [content]. *)
Definition completion (content : string) : list N :=
  OpenAI.json ("{'choices':[{'message':{'role':'assistant','content':'"
               ++ content ++ "'}}]}").

Definition body42 : list N := completion "42".
Definition bodyProse : list N := completion "The answer is 42.".
Definition bodyFalsy : list N :=
  completion "{\'answer\':\'\',\'explanation\':\'\',\'confidence\':0}".

(** The message content of [bodyFalsy]. *)
Definition falsyContent : list N :=
  OpenAI.json "{'answer':'','explanation':'','confidence':0}".

Definition question : list N := utf16 "この問題の答えは何ですか？(x=5)".

(** The confidence 87 the engine might report. *)
Definition conf87 : spec_float := S754_finite false 6122080743456768 (-46).

Definition seenReady : Camera.Seen :=
  {| Camera.cameraReady := true; Camera.now := 10000;
     Camera.capturedLastProcessTime := 0 |}.

Definition realtimeOn : Camera.State :=
  {| Camera.realtimeEnabled := true; Camera.isProcessing := false;
     Camera.lastProcessTime := 0; Camera.processingRef := false |}.

(** An attempt that photographs [question] and gets [status] and [body]
    from the completion endpoint. *)
Definition attempt (status : N) (body : list N) : Camera.World :=
  Camera.world OpenAI.sampleEngine Camera.PhotoUri
    (OCR.RecognizeData question conf87) (answering status body) key.

Definition emptyShared : App.Shared :=
  {| App.storage := {| App.strings := ∅; App.history := None |};
     App.serviceKey := [] |}.

Definition sampleAppend (n : N) : App.Append :=
  {| App.readOk := true; App.writeOk := true; App.now := n;
     App.ocr := {| OCR.text := OCR.cleanText question;
                   OCR.confidence := conf87 |};
     App.ai := OpenAI.raw_answer (JStr (utf16 "x = 5")) |}.

(** Twenty results in a row, numbered by their clock reading. *)
Definition twenty : list App.Append :=
  map sampleAppend (map N.of_nat (seq 1 20)).

End Samples.

(* ===================================================================== *)
(** * The rest of the screens *)
(* ===================================================================== *)

Module Screens.
Import JS App.

(** ** [OpenAIService]: the key *)

(** [setApiKey(apiKey)] *)
Definition setApiKey (k : list N) (sh : Shared) : Shared :=
  {| storage := storage sh; serviceKey := k |}.

(** [clearApiKey()] *)
Definition clearApiKey (sh : Shared) : Shared :=
  {| storage := storage sh; serviceKey := [] |}.

(** [hasApiKey()]: [this.apiKey.length > 0] *)
Definition hasApiKey (sh : Shared) : bool := (0 <? length (serviceKey sh))%nat.

(** ** AsyncStorage: removal *)

(** [AsyncStorage.removeItem(key)] on a string entry *)
Definition removeItem (key : string) (s : AsyncStorage) : AsyncStorage :=
  {| strings := delete key (strings s); history := history s |}.

(** [AsyncStorage.removeItem('analysis_history')] *)
Definition removeHistory (s : AsyncStorage) : AsyncStorage :=
  {| strings := strings s; history := None |}.

(** [AsyncStorage.multiRemove] of the three string keys and the history *)
Definition removeAll (s : AsyncStorage) : AsyncStorage :=
  removeHistory
    (removeItem SAVE_HISTORY (removeItem AUTO_CAPTURE
       (removeItem OPENAI_API_KEY s))).

(** ** The settings screen, continued *)

(** What the user answers to a confirmation dialog. *)
Inductive Choice := Cancel | Confirm.

(** [deleteApiKey]: the dialog, then on confirmation the removal from
    storage, from the service and from the text field, in that order;
    [removeOk] tells whether [removeItem] resolves. *)
Definition deleteApiKey (choice : Choice) (removeOk : bool)
    (ui : Settings) (sh : Shared) : Shared * Settings * list Alert :=
  let dialog :=
    AlertBox (utf16 "APIキーを削除")
      (utf16 "APIキーを完全に削除しますか？この操作は取り消せません。") in
  match choice with
  | Cancel => (sh, ui, [dialog])
  | Confirm =>
      if removeOk
      then (clearApiKey
              {| storage := removeItem OPENAI_API_KEY (storage sh);
                 serviceKey := serviceKey sh |},
            typeApiKey [] ui,
            [dialog;
             AlertBox (utf16 "成功") (utf16 "APIキーが完全に削除されました")])
      else (sh, ui,
            [dialog;
             AlertBox (utf16 "エラー") (utf16 "APIキーの削除に失敗しました")])
  end.

(** [clearAllData] *)
Definition clearAllData (choice : Choice) (removeOk : bool)
    (ui : Settings) (sh : Shared) : Shared * Settings * list Alert :=
  let dialog :=
    AlertBox (utf16 "すべてのデータを削除")
      (utf16 "APIキー、設定、履歴をすべて削除しますか？この操作は取り消せません。") in
  match choice with
  | Cancel => (sh, ui, [dialog])
  | Confirm =>
      if removeOk
      then (clearApiKey
              {| storage := removeAll (storage sh);
                 serviceKey := serviceKey sh |},
            {| apiKey := []; autoCapture := JBool false;
               saveHistory := JBool true |},
            [dialog;
             AlertBox (utf16 "成功") (utf16 "すべてのデータが削除されました")])
      else (sh, ui,
            [dialog;
             AlertBox (utf16 "エラー") (utf16 "データの削除に失敗しました")])
  end.

(** [toggleAutoCapture(value)] *)
Definition toggleAutoCapture (writeOk : bool) (value : bool)
    (ui : Settings) (sh : Shared) : Shared * Settings :=
  ((if writeOk
    then {| storage := setItem AUTO_CAPTURE (stringify_bool value) (storage sh);
            serviceKey := serviceKey sh |}
    else sh),
   {| apiKey := apiKey ui; autoCapture := JBool value;
      saveHistory := saveHistory ui |}).

(** ** The history screen *)

(** [loadHistory]: the stored list replaces the displayed one when there
    is one; the conversion of the stored time stamps back to dates does not
    show on the items kept here. *)
Definition loadHistory (readOk : bool) (sh : Shared)
    (shown : list HistoryItem) : list HistoryItem :=
  if negb readOk then shown
  else
    match history (storage sh) with
    | Some items => items
    | None => shown
    end.

(** [clearHistory] *)
Definition clearHistory (choice : Choice) (removeOk : bool)
    (shown : list HistoryItem) (sh : Shared) : Shared * list HistoryItem :=
  match choice with
  | Cancel => (sh, shown)
  | Confirm =>
      if removeOk
      then ({| storage := removeHistory (storage sh);
               serviceKey := serviceKey sh |}, [])
      else (sh, shown)
  end.

(** [item.id !== itemId] *)
Definition other_id (itemId : list N) (it : HistoryItem) : bool :=
  negb (str_eqb (id it) itemId).

(** [deleteItem(itemId)]: the displayed list is filtered and set, then
    written to storage; [writeOk] tells whether [setItem] resolves. *)
Definition deleteItem (choice : Choice) (writeOk : bool) (itemId : list N)
    (shown : list HistoryItem) (sh : Shared) : Shared * list HistoryItem :=
  match choice with
  | Cancel => (sh, shown)
  | Confirm =>
      let updatedHistory := List.filter (other_id itemId) shown in
      ((if writeOk
        then {| storage := setHistory updatedHistory (storage sh);
                serviceKey := serviceKey sh |}
        else sh),
       updatedHistory)
  end.

(** ** The camera screen, continued *)

(** [loadApiKey]: the screen's key and the service's key are set together,
    to the stored key when there is one and to nothing otherwise. *)
Definition loadApiKey (readOk : bool) (sh : Shared) : Shared * list N :=
  if negb readOk then (clearApiKey sh, [])
  else
    match strings (storage sh) !! OPENAI_API_KEY with
    | Some (c :: k) => (setApiKey (c :: k) sh, c :: k)
    | _ => (clearApiKey sh, [])
    end.

(** [hasValidApiKey] *)
Definition hasValidApiKey (apiKey : list N) (sh : Shared) : bool :=
  truthy (JStr apiKey) && (0 <? length apiKey)%nat && hasApiKey sh.

(** ** The events of the three screens, for sequences of them *)

(** The state the history screen and the camera screen share with storage:
    the list the history screen shows, next to what is stored. *)
Record HistoryState := {
  shared : Shared;
  shown : list HistoryItem
}.

Inductive HistoryEvent :=
| Appended (a : Append)
| Loaded (readOk : bool)
| Deleted (choice : Choice) (writeOk : bool) (itemId : list N)
| Cleared (choice : Choice) (removeOk : bool).

Definition history_step (s : HistoryState) (e : HistoryEvent) : HistoryState :=
  match e with
  | Appended a => {| shared := append (shared s) a; shown := shown s |}
  | Loaded readOk =>
      {| shared := shared s; shown := loadHistory readOk (shared s) (shown s) |}
  | Deleted choice writeOk itemId =>
      let '(sh, l) := deleteItem choice writeOk itemId (shown s) (shared s) in
      {| shared := sh; shown := l |}
  | Cleared choice removeOk =>
      let '(sh, l) := clearHistory choice removeOk (shown s) (shared s) in
      {| shared := sh; shown := l |}
  end.

Definition history_steps (l : list HistoryEvent) (s : HistoryState)
  : HistoryState :=
  fold_left history_step l s.

End Screens.

(* ===================================================================== *)
(** * The Capture Orchestrator: manual capture and the timer *)
(* ===================================================================== *)

Module Manual.
Import JS Camera.

Definition TITLE_ERROR : list N := utf16 "エラー".
Definition MSG_PHOTO_FAILED : list N := utf16 "写真の撮影に失敗しました".
Definition MSG_NO_TEXT : list N :=
  utf16 "テキストが検出されませんでした。もう一度お試しください。".
Definition MSG_ANALYSIS_FAILED : list N :=
  utf16 "解析に失敗しました。もう一度お試しください。".

(** The [finally] block of [takePictureAndAnalyze]. *)
Definition finally (st : State) (effects : list Effect) : Resumed :=
  Resume (setIsProcessing false st) effects Finished.

(** Its [catch] block, followed by [finally]. *)
Definition catch (e : JSError) (st : State) : Resumed :=
  finally st [ConsoleError e; Alert TITLE_ERROR MSG_ANALYSIS_FAILED].

Definition afterAnalyze (ocr : OCR.OCRResult)
    (r : Outcome OpenAI.Analysis) (st : State) : Resumed :=
  match r with
  | Threw e => catch e st
  | Returned ai => finally st [OnResult ocr ai]
  end.

(** [!ocrResult.text || ocrResult.text.length < 2] *)
Definition tooShort (text : list N) : bool :=
  negb (truthy (JStr text)) || (length text <? 2)%nat.

Definition afterRecognize (r : Outcome OCR.OCRResult) (st : State)
  : Resumed :=
  match r with
  | Threw e => catch e st
  | Returned ocr =>
      if tooShort (OCR.text ocr)
      then finally st [Alert TITLE_ERROR MSG_NO_TEXT]
      else Resume st []
             (Await (AnalyzeText (OCR.text ocr)) (afterAnalyze ocr))
  end.

Definition afterPhoto (p : PhotoOutcome) (st : State) : Resumed :=
  match p with
  | PhotoRejects e => catch e st
  | PhotoWithoutUri => finally st [Alert TITLE_ERROR MSG_PHOTO_FAILED]
  | PhotoUri => Resume st [] (Await RecognizeText afterRecognize)
  end.

(** [takePictureAndAnalyze], with whether [cameraRef] is set and the
    [isProcessing] its closure holds. *)
Definition takePictureAndAnalyze (cameraReady capturedIsProcessing : bool)
    (st : State) : Resumed :=
  if negb cameraReady || capturedIsProcessing then Resume st [] Finished
  else Resume (setIsProcessing true st) [] (Await TakePicture afterPhoto).

(** The alerts and the results among the effects. *)
Definition is_alert (e : Effect) : bool :=
  match e with Alert _ _ => true | _ => false end.
Definition is_result (e : Effect) : bool :=
  match e with OnResult _ _ => true | _ => false end.

Definition alerts (t : list Effect) : nat := length (List.filter is_alert t).
Definition results (t : list Effect) : nat := length (List.filter is_result t).

(** A manual capture that starts ends in one of six ways. *)
Inductive ManualEnd (w : World) (st : State) : Run -> Prop :=
| end_photo_rejects e :
    photo w = PhotoRejects e ->
    ManualEnd w st
      {| final := setIsProcessing false (setIsProcessing true st);
         trace := [ConsoleError e;
                   Alert TITLE_ERROR MSG_ANALYSIS_FAILED];
         sent := [] |}
| end_no_uri :
    photo w = PhotoWithoutUri ->
    ManualEnd w st
      {| final := setIsProcessing false (setIsProcessing true st);
         trace := [Alert TITLE_ERROR MSG_PHOTO_FAILED];
         sent := [] |}
| end_recognize_throws e :
    photo w = PhotoUri -> recognized w = Threw e ->
    ManualEnd w st
      {| final := setIsProcessing false (setIsProcessing true st);
         trace := [ConsoleError e;
                   Alert TITLE_ERROR MSG_ANALYSIS_FAILED];
         sent := [] |}
| end_too_short ocr :
    photo w = PhotoUri -> recognized w = Returned ocr ->
    tooShort (OCR.text ocr) = true ->
    ManualEnd w st
      {| final := setIsProcessing false (setIsProcessing true st);
         trace := [Alert TITLE_ERROR MSG_NO_TEXT];
         sent := [] |}
| end_analysis_throws ocr e :
    photo w = PhotoUri -> recognized w = Returned ocr ->
    tooShort (OCR.text ocr) = false ->
    analysed w (OCR.text ocr) = Threw e ->
    ManualEnd w st
      {| final := setIsProcessing false (setIsProcessing true st);
         trace := [ConsoleError e;
                   Alert TITLE_ERROR MSG_ANALYSIS_FAILED];
         sent := [OCR.text ocr] |}
| end_result ocr ai :
    photo w = PhotoUri -> recognized w = Returned ocr ->
    tooShort (OCR.text ocr) = false ->
    analysed w (OCR.text ocr) = Returned ai ->
    ManualEnd w st
      {| final := setIsProcessing false (setIsProcessing true st);
         trace := [OnResult ocr ai];
         sent := [OCR.text ocr] |}.

End Manual.

Module Timer.

(** The interval timers of the platform next to the component's
    [intervalRef]: the handles alive and the next handle [setInterval]
    gives out. *)
Record Timers := {
  intervalRef : option nat;
  live : list nat;
  next : nat
}.

(** Handles are truthy: they start at 1. *)
Definition initial : Timers := {| intervalRef := None; live := []; next := 1 |}.

(** [startRealtimeProcessing] *)
Definition startRealtimeProcessing (t : Timers) : Timers :=
  match intervalRef t with
  | Some _ => t
  | None =>
      {| intervalRef := Some (next t); live := next t :: live t;
         next := S (next t) |}
  end.

(** [clearInterval(handle)] *)
Definition clearInterval (h : nat) (l : list nat) : list nat :=
  List.filter (fun i => negb (Nat.eqb i h)) l.

(** [stopRealtimeProcessing] *)
Definition stopRealtimeProcessing (t : Timers) : Timers :=
  match intervalRef t with
  | Some h =>
      {| intervalRef := None; live := clearInterval h (live t);
         next := next t |}
  | None => t
  end.

(** The effect on [realtimeEnabled] and its clean-up. *)
Definition effect (realtimeEnabled : bool) (t : Timers) : Timers :=
  if realtimeEnabled then startRealtimeProcessing t
  else stopRealtimeProcessing t.

Definition cleanup (t : Timers) : Timers := stopRealtimeProcessing t.

Inductive Op := Start | Stop.

Definition apply_op (t : Timers) (o : Op) : Timers :=
  match o with
  | Start => startRealtimeProcessing t
  | Stop => stopRealtimeProcessing t
  end.

(** The ref names the only live timer, or there is none. *)
Definition tidy (t : Timers) : Prop :=
  match intervalRef t with
  | Some h => live t = [h] /\ (h < next t)%nat
  | None => live t = []
  end.

End Timer.

(* ===================================================================== *)
(** * The Text Recognition Adapter: the worker's life cycle *)
(* ===================================================================== *)

Module OCRService.
Import JS.

(** The singleton: the worker it holds, by handle, and its two flags. *)
Record Service := {
  worker : option nat;
  isInitialized : bool;
  isInitializing : bool
}.

Definition fresh : Service :=
  {| worker := None; isInitialized := false; isInitializing := false |}.

(** How [createWorker] and then [setParameters] end. *)
Inductive Creation :=
| CreateRejects
| ParametersReject (w : nat)
| Created (w : nat).

(** How [worker.recognize] ends. *)
Inductive Recognition :=
| Rejects
| Data (rawText : list N) (rawConfidence : spec_float).

(** [initialize()], run with no other call in between.  While
    [isInitializing] is set the function polls the flag, which only
    another call could clear: [None] stands for that wait without end. *)
Definition initialize (c : Creation) (s : Service)
  : option (Service * Outcome unit) :=
  if isInitialized s then Some (s, Returned tt)
  else if isInitializing s then None
  else
    match c with
    | CreateRejects =>
        Some ({| worker := worker s; isInitialized := false;
                 isInitializing := false |},
              Threw (Error OCR.MSG_INIT_FAILED))
    | ParametersReject w =>
        Some ({| worker := Some w; isInitialized := false;
                 isInitializing := false |},
              Threw (Error OCR.MSG_INIT_FAILED))
    | Created w =>
        Some ({| worker := Some w; isInitialized := true;
                 isInitializing := false |},
              Returned tt)
    end.

(** What [recognizeText] finds once initialisation is behind it. *)
Definition at_worker (s : Service) (r : Recognition) : OCR.Worker :=
  match worker s with
  | None => OCR.NoWorker
  | Some _ =>
      match r with
      | Rejects => OCR.RecognizeRejects
      | Data rawText rawConfidence => OCR.RecognizeData rawText rawConfidence
      end
  end.

(** [recognizeText(imageUri)] on the service *)
Definition recognizeText (c : Creation) (r : Recognition) (s : Service)
  : option (Service * Outcome OCR.OCRResult) :=
  if isInitialized s
  then Some (s, OCR.recognizeText (at_worker s r))
  else
    match initialize c s with
    | None => None
    | Some (s', Threw e) => Some (s', Threw e)
    | Some (s', Returned _) => Some (s', OCR.recognizeText (at_worker s' r))
    end.

(** [terminate()]: whether [worker.terminate()] resolves or not, the
    [finally] block resets the service. *)
Definition terminate (s : Service) : Service :=
  match worker s with
  | Some _ => fresh
  | None => s
  end.

Inductive Call :=
| Initialize (c : Creation)
| RecognizeText (c : Creation) (r : Recognition)
| Terminate.

Definition call (s : Service) (k : Call) : option Service :=
  match k with
  | Initialize c => fst <$> initialize c s
  | RecognizeText c r => fst <$> recognizeText c r s
  | Terminate => Some (terminate s)
  end.

Fixpoint calls (l : list Call) (s : Service) : option Service :=
  match l with
  | [] => Some s
  | k :: l' =>
      match call s k with
      | Some s' => calls l' s'
      | None => None
      end
  end.

(** Between calls no initialisation is under way, and an initialised
    service holds a worker. *)
Definition settled (s : Service) : Prop :=
  isInitializing s = false /\
  (isInitialized s = true -> worker s <> None).

End OCRService.

(* ===================================================================== *)
(** * More concrete inputs *)
(* ===================================================================== *)

Module MoreSamples.
Import JS Samples.

Definition bodyNoChoices : list N := OpenAI.json "{'id':'cmpl-1','choices':[]}".

(** Spaces, a line break and two characters outside the allowed set. *)
Definition blankRaw : list N := utf16 "  #
 @  ".

(** A world whose recogniser reads [raw]. *)
Definition reading (raw : list N) : Camera.World :=
  Camera.world OpenAI.sampleEngine Camera.PhotoUri
    (OCR.RecognizeData raw conf87) (answering 200 bodyProse) key.

(** A world whose recogniser is in the state [wk]. *)
Definition recognising (wk : OCR.Worker) : Camera.World :=
  Camera.world OpenAI.sampleEngine Camera.PhotoUri wk
    (answering 200 bodyProse) key.

Definition cleanedQuestion : OCR.OCRResult :=
  {| OCR.text := OCR.cleanText question;
     OCR.confidence := OCR.Math_max OCR.lit_0_1 (OCR.div conf87 OCR.lit_100) |}.

(** A service history: a failed creation, a failed parameter setting, a
    recognition, a termination. *)
Definition someCalls : list OCRService.Call :=
  [OCRService.Initialize OCRService.CreateRejects;
   OCRService.RecognizeText (OCRService.ParametersReject 1)
     (OCRService.Data question conf87);
   OCRService.RecognizeText (OCRService.Created 2)
     (OCRService.Data question conf87);
   OCRService.Terminate].

Definition someEvents : list Screens.HistoryEvent :=
  map Screens.Appended twenty ++
  [Screens.Loaded true;
   Screens.Appended (sampleAppend 21);
   Screens.Deleted Screens.Confirm true (digits 7);
   Screens.Loaded true;
   Screens.Cleared Screens.Confirm false].

Definition emptyHistory : Screens.HistoryState :=
  {| Screens.shared := emptyShared; Screens.shown := [] |}.

End MoreSamples.

(* ===================================================================== *)
(** * Facts about strings and the JSON parser *)
(* ===================================================================== *)

Section StringFacts.
Import JS.

Lemma startsWith_nil (s : list N) : startsWith s [] = true.
Proof. destruct s; reflexivity. Qed.

Lemma includes_char (s : list N) (c : N) : includes s [c] = true <-> In c s.
Proof.
  induction s as [|d s IH]; simpl.
  - split; [discriminate | tauto].
  - rewrite startsWith_nil, orb_true_iff, andb_true_r, N.eqb_eq, IH.
    split; intros [H|H]; auto.
Qed.

Lemma test_digits_some (s : list N) :
  Camera.test_digits s = true <-> exists c, In c s /\ 0x30 <= c <= 0x39.
Proof.
  induction s as [|d s IH]; simpl.
  - split; [discriminate | intros (c & [] & _)].
  - rewrite orb_true_iff, IH. unfold isDigit.
    rewrite andb_true_iff, !N.leb_le. split.
    + intros [H | (c & Hc & Hd)]; [exists d | exists c]; auto.
    + intros (c & [-> | Hc] & Hd); [left | right; exists c]; auto.
Qed.

Lemma trimStart_length (s : list N) : (length (trimStart s) <= length s)%nat.
Proof.
  induction s as [|c s IH]; simpl; [lia|].
  destruct (isWhiteSpace c); simpl; lia.
Qed.

Lemma trimStart_app_keeps (l : list N) (c : N) (t : list N) :
  isWhiteSpace c = false -> exists l', trimStart (l ++ c :: t) = l' ++ c :: t.
Proof.
  intros Hc. induction l as [|d l IH]; simpl.
  - rewrite Hc. exists []. reflexivity.
  - destruct (isWhiteSpace d); [exact IH|]. exists (d :: l). reflexivity.
Qed.

(** Trimming the end keeps everything up to a character that is not
    whitespace. *)
Lemma trimEnd_keeps_prefix (p : list N) (c : N) (t : list N) :
  isWhiteSpace c = false -> exists t', trimEnd (p ++ c :: t) = p ++ c :: t'.
Proof.
  intros Hc. unfold trimEnd.
  rewrite rev_app_distr. simpl. rewrite <- app_assoc. simpl.
  destruct (trimStart_app_keeps (rev t) c (rev p) Hc) as [l' ->].
  rewrite rev_app_distr. simpl. rewrite rev_involutive, <- app_assoc. simpl.
  exists (rev l'). reflexivity.
Qed.

Lemma trimEnd_id (s : list N) :
  (forall c, last s = Some c -> isWhiteSpace c = false) -> trimEnd s = s.
Proof.
  intros Hlast. destruct s as [|c s] using rev_ind; [reflexivity|].
  unfold trimEnd. rewrite rev_app_distr. simpl.
  rewrite (Hlast c) by apply last_snoc.
  simpl. rewrite rev_involutive. reflexivity.
Qed.

Lemma startsWith_sk (v : list N) :
  startsWith v (utf16 "sk-") = true -> exists r, v = utf16 "sk-" ++ r.
Proof.
  change (utf16 "sk-") with [115; 107; 45].
  destruct v as [|a [|b [|c r]]]; cbn [startsWith]; try discriminate;
    rewrite ?andb_false_r; try discriminate.
  rewrite !andb_true_iff, !N.eqb_eq; intros (<- & <- & <- & _).
  eexists; reflexivity.
Qed.

(** A key with the expected prefix loses only trailing whitespace when
    trimmed. *)
Lemma trim_sk (v : list N) :
  startsWith v (utf16 "sk-") = true ->
  exists t, trim v = 115 :: t /\ trim v = trimEnd v.
Proof.
  intros Hv. destruct (startsWith_sk v Hv) as [r ->].
  change (utf16 "sk-") with [115; 107; 45]. unfold trim. simpl.
  destruct (trimEnd_keeps_prefix [] 115 (107 :: 45 :: r) eq_refl) as [t' Ht].
  simpl in Ht. rewrite Ht. eauto.
Qed.

End StringFacts.

Section ParserFacts.
Import JS.

(** *** The parser never yields [undefined] *)

Lemma parse_elements_defined fuel : forall s acc v r,
  parse_elements fuel s acc = Parsed v r -> v <> JUndefined.
Proof.
  induction fuel as [|f IH]; intros s acc v r; simpl; [discriminate|].
  destruct (parse_value f s) as [v0 r0| |]; try discriminate.
  destruct (skip_ws r0) as [|c r']; [discriminate|].
  destruct (c =? _); [apply IH|].
  destruct (c =? _); [|discriminate].
  intros [= <- _]; discriminate.
Qed.

Lemma parse_members_defined fuel : forall s acc v r,
  parse_members fuel s acc = Parsed v r -> v <> JUndefined.
Proof.
  induction fuel as [|f IH]; intros s acc v r; simpl; [discriminate|].
  destruct (skip_ws s) as [|c r0]; [discriminate|].
  destruct (c =? _); [|discriminate].
  destruct (parse_chars r0) as [[k r1]|]; [|discriminate].
  destruct (skip_ws r1) as [|c1 r2]; [discriminate|].
  destruct (c1 =? _); [|discriminate].
  destruct (parse_value f r2) as [v0 r3| |]; try discriminate.
  destruct (skip_ws r3) as [|c3 r4]; [discriminate|].
  destruct (c3 =? _); [apply IH|].
  destruct (c3 =? _); [|discriminate].
  intros [= <- _]; discriminate.
Qed.

Lemma parse_number_defined s v r :
  parse_number s = Some (v, r) -> v <> JUndefined.
Proof.
  unfold parse_number.
  destruct (match s with [] => _ | c :: r0 => _ end) as [neg s1].
  destruct (parse_int s1) as [[i s2]|]; [|discriminate].
  destruct (parse_frac i s2) as [[[m k] s3]|]; [|discriminate].
  destruct (parse_exp s3) as [[e s4]|]; [|discriminate].
  intros [= <- _]; discriminate.
Qed.

Lemma parse_value_defined fuel s v r :
  parse_value fuel s = Parsed v r -> v <> JUndefined.
Proof.
  destruct fuel as [|f]; cbn [parse_value]; [discriminate|].
  destruct (skip_ws s) as [|c r0]; [discriminate|].
  destruct (c =? _).
  { destruct (skip_ws r0) as [|c' r']; [discriminate|].
    destruct (c' =? _); [intros [= <- _]; discriminate|].
    apply parse_members_defined. }
  destruct (c =? _).
  { destruct (skip_ws r0) as [|c' r']; [discriminate|].
    destruct (c' =? _); [intros [= <- _]; discriminate|].
    apply parse_elements_defined. }
  destruct (c =? _).
  { destruct (parse_chars r0) as [[t rest]|]; [|discriminate].
    intros [= <- _]; discriminate. }
  destruct (startsWith _ _); [intros [= <- _]; discriminate|].
  destruct (startsWith _ _); [intros [= <- _]; discriminate|].
  destruct (startsWith _ _); [intros [= <- _]; discriminate|].
  destruct (parse_number _) as [[v0 r1]|] eqn:Hn; [|discriminate].
  intros [= <- _]. eapply parse_number_defined, Hn.
Qed.

(** [JSON.parse] never yields [undefined]. *)
Lemma JSON_parse_defined s v : JSON_parse s = Some v -> v <> JUndefined.
Proof.
  unfold JSON_parse.
  destruct (parse_value _ s) as [v0 r| |] eqn:Hv; try discriminate.
  destruct (skip_ws r); [|discriminate].
  intros [= <-]. eapply parse_value_defined, Hv.
Qed.

(** *** Every parser consumes input *)

Lemma skip_ws_length (s : list N) : (length (skip_ws s) <= length s)%nat.
Proof.
  induction s as [|c s IH]; simpl; [lia|].
  destruct (isJsonWs c); simpl; lia.
Qed.

Lemma skip_ws_cons (s : list N) (c : N) (r : list N) :
  skip_ws s = c :: r -> (length r < length s)%nat.
Proof. intros H. pose proof (skip_ws_length s) as Hl. rewrite H in Hl. simpl in Hl. lia. Qed.

Lemma parse_chars_length : forall s t r,
  parse_chars s = Some (t, r) -> (length r < length s)%nat.
Proof.
  assert (forall n s, (length s <= n)%nat -> forall t r,
             parse_chars s = Some (t, r) -> (length r < length s)%nat) as H.
  { induction n as [|n IH]; intros s Hn t r.
    { destruct s; [discriminate | simpl in Hn; lia]. }
    destruct s as [|c s]; [discriminate|]. cbn [parse_chars].
    assert (forall (x : N) (s' : list N), (length s' <= n)%nat ->
              cons_char x (parse_chars s') = Some (t, r) ->
              (length r < length s')%nat) as Hcons.
    { intros x s' Hs'. destruct (parse_chars s') as [[t' r']|] eqn:Hp;
        [|discriminate]. intros [= _ <-]. eapply IH; eassumption. }
    simpl in Hn.
    destruct (c =? 34); [intros [= _ <-]; simpl; lia|].
    destruct (c <? 32); [discriminate|].
    destruct (c =? 92).
    - destruct s as [|e r1]; [discriminate|].
      destruct (e =? _).
      + destruct r1 as [|h1 [|h2 [|h3 [|h4 r2]]]]; try discriminate.
        destruct (hexval h1), (hexval h2), (hexval h3), (hexval h4);
          try discriminate.
        intros Hc. apply Hcons in Hc; simpl in *; lia.
      + destruct (unescape e); [|discriminate].
        intros Hc. apply Hcons in Hc; simpl in *; lia.
    - intros Hc. apply Hcons in Hc; simpl in *; lia. }
  intros s. apply (H (length s)). lia.
Qed.

Lemma take_digits_length : forall s acc count v k r,
  take_digits s acc count = (v, k, r) -> (length r <= length s)%nat.
Proof.
  induction s as [|c s IH]; intros acc count v k r; simpl.
  - intros [= _ _ <-]. simpl. lia.
  - destruct (isDigit c).
    + intros H. apply IH in H. lia.
    + intros [= _ _ <-]. simpl. lia.
Qed.

Lemma parse_number_length s v r :
  parse_number s = Some (v, r) -> (length r < length s)%nat.
Proof.
  unfold parse_number.
  assert (exists neg s1, (match s with
                          | [] => (false, s)
                          | c :: r0 => if c =? ch "-" then (true, r0) else (false, s)
                          end) = (neg, s1) /\ (length s1 <= length s)%nat)
    as (neg & s1 & -> & Hs1).
  { destruct s as [|c r0]; [eexists _, _; split; [reflexivity|lia]|].
    destruct (c =? _); eexists _, _; (split; [reflexivity|simpl; lia]). }
  destruct (parse_int s1) as [[i s2]|] eqn:Hint; [|discriminate].
  assert (length s2 < length s1)%nat as Hs2.
  { unfold parse_int in Hint. destruct s1 as [|c r1]; [discriminate|].
    destruct (c =? _); [injection Hint as _ <-; simpl; lia|].
    destruct (isDigit c) eqn:Hd; [|discriminate].
    cbn [take_digits] in Hint. rewrite Hd in Hint.
    destruct (take_digits r1 _ _) as [[v' k'] rest] eqn:Ht.
    injection Hint as _ <-. apply take_digits_length in Ht. simpl. lia. }
  destruct (parse_frac i s2) as [[[m k] s3]|] eqn:Hfrac; [|discriminate].
  assert (length s3 <= length s2)%nat as Hs3.
  { unfold parse_frac in Hfrac. destruct s2 as [|c r2];
      [injection Hfrac as _ _ <-; simpl; lia|].
    destruct (c =? _); [|injection Hfrac as _ _ <-; simpl; lia].
    destruct (take_digits r2 _ _) as [[v' k'] rest] eqn:Ht.
    destruct (k' =? 0)%Z; [discriminate|].
    injection Hfrac as _ _ <-. apply take_digits_length in Ht. simpl. lia. }
  destruct (parse_exp s3) as [[e s4]|] eqn:Hexp; [|discriminate].
  assert (length s4 <= length s3)%nat as Hs4.
  { unfold parse_exp in Hexp. destruct s3 as [|c r3];
      [injection Hexp as _ <-; simpl; lia|].
    destruct (_ || _); [|injection Hexp as _ <-; simpl; lia].
    assert (exists sg r1, (match r3 with
                           | [] => (false, r3)
                           | c1 :: r' =>
                               if c1 =? ch "-" then (true, r')
                               else if c1 =? ch "+" then (false, r')
                               else (false, r3)
                           end) = (sg, r1) /\ (length r1 <= length r3)%nat)
      as (sg & r1 & Heq & Hr1).
    { destruct r3 as [|c1 r']; [eexists _, _; split; [reflexivity|lia]|].
      destruct (c1 =? _); [eexists _, _; split; [reflexivity|simpl; lia]|].
      destruct (c1 =? _); eexists _, _; (split; [reflexivity|simpl; lia]). }
    rewrite Heq in Hexp.
    destruct (take_digits r1 _ _) as [[v' k'] rest] eqn:Ht.
    destruct (k' =? 0)%Z; [discriminate|].
    injection Hexp as _ <-. apply take_digits_length in Ht. simpl. lia. }
  intros [= _ <-]. lia.
Qed.

(** *** Fuel *)

(** What a successful parse leaves is shorter than what it was given. *)
Lemma parse_consumes (fuel : nat) :
  (forall s v r, parse_value fuel s = Parsed v r -> (length r < length s)%nat) /\
  (forall s acc v r,
      parse_elements fuel s acc = Parsed v r -> (length r < length s)%nat) /\
  (forall s acc v r,
      parse_members fuel s acc = Parsed v r -> (length r < length s)%nat).
Proof.
  induction fuel as [|f (IHv & IHe & IHm)];
    [repeat split; intros; discriminate|].
  refine (conj _ (conj _ _)).
  - intros s v r. cbn [parse_value].
    destruct (skip_ws s) as [|c r0] eqn:Hs; [discriminate|].
    apply skip_ws_cons in Hs.
    destruct (c =? _).
    { destruct (skip_ws r0) as [|c' r'] eqn:Hr0; [discriminate|].
      apply skip_ws_cons in Hr0.
      destruct (c' =? _); [intros [= _ <-]; lia|].
      intros H. apply IHm in H. lia. }
    destruct (c =? _).
    { destruct (skip_ws r0) as [|c' r'] eqn:Hr0; [discriminate|].
      apply skip_ws_cons in Hr0.
      destruct (c' =? _); [intros [= _ <-]; lia|].
      intros H. apply IHe in H. lia. }
    destruct (c =? _).
    { destruct (parse_chars r0) as [[t rest]|] eqn:Hc; [|discriminate].
      apply parse_chars_length in Hc. intros [= _ <-]. lia. }
    destruct (startsWith _ _);
      [intros [= _ <-]; rewrite length_drop; simpl in *; lia|].
    destruct (startsWith _ _);
      [intros [= _ <-]; rewrite length_drop; simpl in *; lia|].
    destruct (startsWith _ _);
      [intros [= _ <-]; rewrite length_drop; simpl in *; lia|].
    destruct (parse_number _) as [[v0 r1]|] eqn:Hn; [|discriminate].
    apply parse_number_length in Hn. intros [= _ <-]. simpl in *. lia.
  - intros s acc v r. cbn [parse_elements].
    destruct (parse_value f s) as [v0 r0| |] eqn:Hv; try discriminate.
    apply IHv in Hv.
    destruct (skip_ws r0) as [|c r'] eqn:Hr0; [discriminate|].
    apply skip_ws_cons in Hr0.
    destruct (c =? _); [intros H; apply IHe in H; lia|].
    destruct (c =? _); [|discriminate].
    intros [= _ <-]. lia.
  - intros s acc v r. cbn [parse_members].
    destruct (skip_ws s) as [|c r0] eqn:Hs; [discriminate|].
    apply skip_ws_cons in Hs.
    destruct (c =? _); [|discriminate].
    destruct (parse_chars r0) as [[k r1]|] eqn:Hc; [|discriminate].
    apply parse_chars_length in Hc.
    destruct (skip_ws r1) as [|c1 r2] eqn:Hr1; [discriminate|].
    apply skip_ws_cons in Hr1.
    destruct (c1 =? _); [|discriminate].
    destruct (parse_value f r2) as [v0 r3| |] eqn:Hv; try discriminate.
    apply IHv in Hv.
    destruct (skip_ws r3) as [|c3 r4] eqn:Hr3; [discriminate|].
    apply skip_ws_cons in Hr3.
    destruct (c3 =? _); [intros H; apply IHm in H; lia|].
    destruct (c3 =? _); [|discriminate].
    intros [= _ <-]. lia.
Qed.

(** Two units of fuel for each character are enough. *)
Lemma parse_fuel_enough (fuel : nat) :
  (forall s, (2 * length s + 1 <= fuel)%nat -> parse_value fuel s <> OutOfFuel) /\
  (forall s acc, (2 * length s + 2 <= fuel)%nat ->
                 parse_elements fuel s acc <> OutOfFuel) /\
  (forall s acc, (2 * length s + 2 <= fuel)%nat ->
                 parse_members fuel s acc <> OutOfFuel).
Proof.
  induction fuel as [|f (IHv & IHe & IHm)];
    [repeat split; intros; lia|].
  refine (conj _ (conj _ _)).
  - intros s Hf. cbn [parse_value].
    destruct (skip_ws s) as [|c r0] eqn:Hs; [discriminate|].
    apply skip_ws_cons in Hs.
    destruct (c =? _).
    { destruct (skip_ws r0) as [|c' r'] eqn:Hr0; [discriminate|].
      destruct (c' =? _); [discriminate|]. apply IHm. lia. }
    destruct (c =? _).
    { destruct (skip_ws r0) as [|c' r'] eqn:Hr0; [discriminate|].
      destruct (c' =? _); [discriminate|]. apply IHe. lia. }
    destruct (c =? _); [destruct (parse_chars r0) as [[? ?]|]; discriminate|].
    do 3 (destruct (startsWith _ _); [discriminate|]).
    destruct (parse_number _) as [[? ?]|]; discriminate.
  - intros s acc Hf. cbn [parse_elements].
    destruct (parse_value f s) as [v0 r0| |] eqn:Hv.
    + apply (proj1 (parse_consumes f)) in Hv.
      destruct (skip_ws r0) as [|c r'] eqn:Hr0; [discriminate|].
      apply skip_ws_cons in Hr0.
      destruct (c =? _); [apply IHe; lia|].
      destruct (c =? _); discriminate.
    + discriminate.
    + exfalso. revert Hv. apply IHv. lia.
  - intros s acc Hf. cbn [parse_members].
    destruct (skip_ws s) as [|c r0] eqn:Hs; [discriminate|].
    apply skip_ws_cons in Hs.
    destruct (c =? _); [|discriminate].
    destruct (parse_chars r0) as [[k r1]|] eqn:Hc; [|discriminate].
    apply parse_chars_length in Hc.
    destruct (skip_ws r1) as [|c1 r2] eqn:Hr1; [discriminate|].
    apply skip_ws_cons in Hr1.
    destruct (c1 =? _); [|discriminate].
    destruct (parse_value f r2) as [v0 r3| |] eqn:Hv.
    + apply (proj1 (parse_consumes f)) in Hv.
      destruct (skip_ws r3) as [|c3 r4] eqn:Hr3; [discriminate|].
      apply skip_ws_cons in Hr3.
      destruct (c3 =? _); [apply IHm; lia|].
      destruct (c3 =? _); discriminate.
    + discriminate.
    + exfalso. revert Hv. apply IHv. lia.
Qed.

(** A parse that did not run out of fuel is the same with more fuel. *)
Lemma parse_fuel_stable (fuel : nat) :
  (forall s, parse_value fuel s <> OutOfFuel ->
             parse_value (S fuel) s = parse_value fuel s) /\
  (forall s acc, parse_elements fuel s acc <> OutOfFuel ->
                 parse_elements (S fuel) s acc = parse_elements fuel s acc) /\
  (forall s acc, parse_members fuel s acc <> OutOfFuel ->
                 parse_members (S fuel) s acc = parse_members fuel s acc).
Proof.
  induction fuel as [|f (IHv & IHe & IHm)];
    [repeat split; intros; simpl in *; congruence|].
  refine (conj _ (conj _ _)).
  - intros s. cbn [parse_value].
    destruct (skip_ws s) as [|c r0]; [reflexivity|].
    destruct (c =? _).
    { destruct (skip_ws r0) as [|c' r']; [reflexivity|].
      destruct (c' =? _); [reflexivity|]. apply IHm. }
    destruct (c =? _).
    { destruct (skip_ws r0) as [|c' r']; [reflexivity|].
      destruct (c' =? _); [reflexivity|]. apply IHe. }
    reflexivity.
  - intros s acc. cbn [parse_elements].
    destruct (parse_value f s) as [v0 r0| |] eqn:Hv; [| |congruence].
    + rewrite IHv, Hv by congruence.
      destruct (skip_ws r0) as [|c r']; [reflexivity|].
      destruct (c =? _); [apply IHe|]. reflexivity.
    + rewrite IHv, Hv by congruence. reflexivity.
  - intros s acc. cbn [parse_members].
    destruct (skip_ws s) as [|c r0]; [reflexivity|].
    destruct (c =? _); [|reflexivity].
    destruct (parse_chars r0) as [[k r1]|]; [|reflexivity].
    destruct (skip_ws r1) as [|c1 r2]; [reflexivity|].
    destruct (c1 =? _); [|reflexivity].
    destruct (parse_value f r2) as [v0 r3| |] eqn:Hv; [| |congruence].
    + rewrite IHv, Hv by congruence.
      destruct (skip_ws r3) as [|c3 r4]; [reflexivity|].
      destruct (c3 =? _); [apply IHm|]. reflexivity.
    + rewrite IHv, Hv by congruence. reflexivity.
Qed.

(** [JSON_parse] never fails for want of fuel, and any larger amount of fuel
    gives the same parse. *)
Lemma JSON_parse_fuel (text : list N) (extra : nat) :
  parse_value (2 * length text + 2) text <> OutOfFuel /\
  parse_value (extra + (2 * length text + 2)) text =
    parse_value (2 * length text + 2) text.
Proof.
  assert (parse_value (2 * length text + 2) text <> OutOfFuel) as Hok
    by (apply parse_fuel_enough; lia).
  split; [exact Hok|].
  induction extra as [|n IH]; [reflexivity|].
  change (S n + (2 * length text + 2))%nat
    with (S (n + (2 * length text + 2)))%nat.
  rewrite (proj1 (parse_fuel_stable _)); [exact IH|]. rewrite IH. exact Hok.
Qed.

End ParserFacts.

Section ParserExamples.
Import JS OpenAI.

Lemma JSON_parse_accepts :
  JSON_parse (utf16 "42") = Some (JNum (Dec 42 0)) /\
  JSON_parse (utf16 " -0.50e+3 ") = Some (JNum (Dec (-50) 1)) /\
  JSON_parse (utf16 "null") = Some JNull /\
  JSON_parse (json "'caf\u00e9\n'") = Some (JStr [99; 97; 102; 233; 10]) /\
  JSON_parse (json "[1, [true, []], {}]") =
    Some (JArr [JNum (Dec 1 0); JArr [JBool true; JArr []]; JObj []]) /\
  JSON_parse (json "{'a': 1, 'b': {'a': 2}, 'a': 3}") =
    Some (JObj [(utf16 "a", JNum (Dec 3 0));
                (utf16 "b", JObj [(utf16 "a", JNum (Dec 2 0))]);
                (utf16 "a", JNum (Dec 1 0))]).
Proof. repeat split; vm_compute; reflexivity. Qed.

Lemma JSON_parse_rejects :
  JSON_parse [] = None /\
  JSON_parse (utf16 "01") = None /\
  JSON_parse (utf16 "1.") = None /\
  JSON_parse (utf16 "-") = None /\
  JSON_parse (utf16 "nullx") = None /\
  JSON_parse (utf16 "[1,]") = None /\
  JSON_parse (json "{'a':1,}") = None /\
  JSON_parse (utf16 "{a:1}") = None /\
  JSON_parse (utf16 "'a'") = None /\
  JSON_parse (utf16 "undefined") = None /\
  JSON_parse (utf16 "[object Object]") = None.
Proof. repeat split; vm_compute; reflexivity. Qed.

(** The smallest subnormal is about 4.94e-324: a literal rounds to zero
    when it is at most half of that. *)
Lemma is_zero_examples :
  is_zero (Dec 0 0) = true /\ is_zero (Dec 0 5) = true /\
  is_zero (Dec 5 (-1)) = false /\ is_zero (Dec 1 (-323)) = false /\
  is_zero (Dec 3 (-324)) = false /\ is_zero (Dec 2 (-324)) = true /\
  is_zero (Dec (-1) (-400)) = true.
Proof. repeat split; vm_compute; reflexivity. Qed.

Lemma digits_examples :
  digits 0 = utf16 "0" /\ digits 7 = utf16 "7" /\ digits 429 = utf16 "429" /\
  digits 1000 = utf16 "1000" /\
  digits 1700000000000 = utf16 "1700000000000".
Proof. repeat split; vm_compute; reflexivity. Qed.

End ParserExamples.

Section AccessFacts.
Import JS OpenAI.
Variable E : Engine.

Lemma get_field (v : JSVal) (k : string) :
  v <> JNull -> v <> JUndefined -> get E v (utf16 k) = Returned (field v k).
Proof. destruct v; intros; try reflexivity; congruence. Qed.

Lemma get_opt_field (v : JSVal) (k : string) :
  get_opt E v (utf16 k) = Returned (field v k).
Proof. destruct v; reflexivity. Qed.

Lemma or_else_not_empty (v : JSVal) (s : list N) :
  s <> [] -> or_else v (JStr s) <> JStr [].
Proof.
  intros Hs. unfold or_else. destruct (truthy v) eqn:Hv.
  - intros ->. discriminate.
  - congruence.
Qed.

Lemma or_else_not_zero (v : JSVal) (d0 d : Decimal) :
  is_zero d0 = false -> or_else v (JNum d0) = JNum d -> is_zero d = false.
Proof.
  intros H0. unfold or_else. destruct (truthy v) eqn:Hv.
  - intros ->. simpl in Hv. destruct (is_zero d); [discriminate|reflexivity].
  - intros [= <-]. exact H0.
Qed.

End AccessFacts.

(* ===================================================================== *)
(** * The Completion Client *)
(* ===================================================================== *)

Section CompletionClient.
Import JS OpenAI.
Variable E : Engine.
Variable fetch : Request -> FetchOutcome.
Variables apiKey text : list N.

(** With a key set and a response received, [analyzeText] is its handling
    of that response. *)
Lemma analyzeText_response status body :
  apiKey <> [] ->
  fetch (request apiKey text) = Response status body ->
  analyzeText E fetch apiKey text =
    if negb (ok status) then fail_with_status E status body
    else
      let! data := response_json E body in
      let! content := message_content E data in
      match parsed_answer E content with
      | Returned r => Returned r
      | Threw _ => Returned (raw_answer content)
      end.
Proof.
  intros Hkey Hfetch. unfold analyzeText.
  destruct apiKey as [|c k]; [congruence|].
  rewrite Hfetch. reflexivity.
Qed.

Lemma has_quota_code_eq errorData :
  strict_eq_str (field (field errorData "error") "code")
    (utf16 "insufficient_quota")
  = has_quota_code errorData.
Proof. reflexivity. Qed.

(** C2 (amended): for every non-success HTTP response whose body parses as
    JSON (and is not the JSON [null], unless the status is 401 or 403),
    [analyzeText] fails with the error the status determines: 401 gives
    InvalidCredential, 429 with the code [insufficient_quota] gives
    QuotaExceeded, any other 429 gives RateLimited, 403 gives Forbidden,
    and any other status gives UpstreamError with the status and the
    upstream message. *)
Theorem analyze_fails_by_status status body errorData :
  apiKey <> [] ->
  fetch (request apiKey text) = Response status body ->
  ok status = false ->
  JSON_parse body = Some errorData ->
  errorData <> JNull \/ status = 401 \/ status = 403 ->
  let result := analyzeText E fetch apiKey text in
  (status = 401 -> result = Threw InvalidCredential) /\
  (status = 429 -> has_quota_code errorData = true ->
   result = Threw QuotaExceeded) /\
  (status = 429 -> has_quota_code errorData = false ->
   result = Threw RateLimited) /\
  (status = 403 -> result = Threw Forbidden) /\
  (status <> 401 -> status <> 429 -> status <> 403 ->
   result = Threw (UpstreamError status (upstream_message E errorData))).
Proof.
  intros Hkey Hfetch Hok Hparse Hbody result. subst result.
  rewrite (analyzeText_response status body Hkey Hfetch), Hok. simpl.
  unfold fail_with_status, response_json. rewrite Hparse. simpl.
  pose proof (JSON_parse_defined _ _ Hparse) as Hdef.
  repeat split.
  - intros ->. reflexivity.
  - intros -> Hq. simpl.
    rewrite get_field by (destruct Hbody as [?|[?|?]]; congruence).
    simpl. rewrite get_opt_field. simpl.
    rewrite has_quota_code_eq, Hq. reflexivity.
  - intros -> Hq. simpl.
    rewrite get_field by (destruct Hbody as [?|[?|?]]; congruence).
    simpl. rewrite get_opt_field. simpl.
    rewrite has_quota_code_eq, Hq. reflexivity.
  - intros ->. reflexivity.
  - intros H1 H2 H3.
    apply N.eqb_neq in H1, H2, H3. rewrite H1, H2, H3.
    rewrite get_field by (destruct Hbody as [?|[?|?]]; [congruence| |];
      apply N.eqb_neq in H1, H3; congruence).
    simpl. rewrite get_opt_field. simpl.
    unfold UpstreamError, upstream_message, or_else.
    destruct (truthy _); reflexivity.
Qed.

(** C4 (amended): for every successful response whose message content is
    not valid JSON, [analyzeText] returns the whole content as the answer,
    the fixed filler as the explanation and the confidence 0.8. *)
Theorem analyze_returns_raw_content status body data content :
  apiKey <> [] ->
  fetch (request apiKey text) = Response status body ->
  ok status = true ->
  JSON_parse body = Some data ->
  message_content E data = Returned content ->
  JSON_parse (ToString E content) = None ->
  analyzeText E fetch apiKey text =
    Returned {| answer := content;
                explanation := JStr FILLER;
                confidence := JNum (Dec 8 (-1)) |}.
Proof.
  intros Hkey Hfetch Hok Hparse Hcontent Hnot.
  rewrite (analyzeText_response status body Hkey Hfetch), Hok. simpl.
  unfold response_json. rewrite Hparse. simpl. rewrite Hcontent. simpl.
  unfold parsed_answer. rewrite Hnot. reflexivity.
Qed.

(** C9: for every successful response whose message content parses as
    JSON, the result never carries an empty answer, an empty explanation
    or a zero confidence; and each field that is absent or falsy in the
    parsed object is replaced by its default (confidence 0 by 0.5, an
    empty answer or explanation by the fixed texts). *)
Theorem analyze_defaults_replace_falsy_fields status body data content parsed :
  apiKey <> [] ->
  fetch (request apiKey text) = Response status body ->
  ok status = true ->
  JSON_parse body = Some data ->
  message_content E data = Returned content ->
  JSON_parse (ToString E content) = Some parsed ->
  exists r,
    analyzeText E fetch apiKey text = Returned r /\
    answer r <> JStr [] /\
    explanation r <> JStr [] /\
    (forall d, confidence r = JNum d -> is_zero d = false) /\
    (parsed <> JNull ->
     answer r = (if truthy (field parsed "answer")
                 then field parsed "answer" else JStr NO_ANSWER) /\
     explanation r = (if truthy (field parsed "explanation")
                      then field parsed "explanation"
                      else JStr NO_EXPLANATION) /\
     confidence r = (if truthy (field parsed "confidence")
                     then field parsed "confidence"
                     else JNum (Dec 5 (-1)))).
Proof.
  intros Hkey Hfetch Hok Hparse Hcontent Hjson.
  rewrite (analyzeText_response status body Hkey Hfetch), Hok. simpl.
  unfold response_json. rewrite Hparse. simpl. rewrite Hcontent. simpl.
  unfold parsed_answer. rewrite Hjson.
  pose proof (JSON_parse_defined _ _ Hjson) as Hdef.
  assert (parsed = JNull \/ parsed <> JNull) as [->|Hnull]
    by (destruct parsed; auto; right; discriminate).
  - simpl. eexists; split; [reflexivity|]. simpl.
    refine (conj _ (conj _ (conj _ _))).
    + intros ->. simpl in Hjson. discriminate.
    + discriminate.
    + intros d [= <-]. reflexivity.
    + congruence.
  - rewrite !(get_field E) by assumption. simpl.
    eexists; split; [reflexivity|]. simpl.
    refine (conj _ (conj _ (conj _ _))).
    + apply or_else_not_empty. discriminate.
    + apply or_else_not_empty. discriminate.
    + intros d. apply or_else_not_zero. reflexivity.
    + intros _. repeat split.
Qed.

End CompletionClient.

Section CompletionClientExamples.
Import JS OpenAI Samples.

(** The messages tell the error kinds apart. *)
Lemma error_kinds_distinct :
  InvalidCredential <> QuotaExceeded /\ InvalidCredential <> RateLimited /\
  InvalidCredential <> Forbidden /\ QuotaExceeded <> RateLimited /\
  QuotaExceeded <> Forbidden /\ RateLimited <> Forbidden.
Proof. repeat split; vm_compute; discriminate. Qed.

(** C2, as stated, fails: a 401 whose body is not JSON ends in the
    SyntaxError of [response.json()], not in InvalidCredential. *)
Lemma analyze_401_unparseable_body :
  ok 401 = false /\
  analyzeText sampleEngine (answering 401 htmlBody) key question =
    Threw (SyntaxError (utf16 "Unexpected token")) /\
  analyzeText sampleEngine (answering 401 htmlBody) key question <>
    Threw InvalidCredential.
Proof.
  split; [reflexivity|]. split; [vm_compute; reflexivity|].
  vm_compute. discriminate.
Qed.

(** A 429 whose body is the JSON [null] ends in a TypeError. *)
Lemma analyze_429_null_body :
  analyzeText sampleEngine (answering 429 (utf16 "null")) key question =
    Threw (TypeError (utf16 "Cannot read properties")).
Proof. vm_compute. reflexivity. Qed.

Lemma analyze_fails_by_status_witness :
  key <> [] /\
  ok 429 = false /\
  JSON_parse quotaBody = Some (parsedOf quotaBody) /\
  has_quota_code (parsedOf quotaBody) = true /\
  analyzeText sampleEngine (answering 429 quotaBody) key question =
    Threw QuotaExceeded.
Proof.
  assert (key <> []) as Hkey by (vm_compute; discriminate).
  assert (JSON_parse quotaBody = Some (parsedOf quotaBody)) as Hparse
    by (vm_compute; reflexivity).
  assert (has_quota_code (parsedOf quotaBody) = true) as Hq
    by (vm_compute; reflexivity).
  refine (conj Hkey (conj eq_refl (conj Hparse (conj Hq _)))).
  assert (parsedOf quotaBody <> JNull \/ 429 = 401 \/ 429 = 403) as Hbody
    by (left; vm_compute; discriminate).
  destruct (analyze_fails_by_status sampleEngine (answering 429 quotaBody)
              key question 429 quotaBody (parsedOf quotaBody)
              Hkey eq_refl eq_refl Hparse Hbody) as (_ & Hquota & _).
  exact (Hquota eq_refl Hq).
Defined.

(** C4, as stated, fails on its own example: the content [42] is valid
    JSON, a number without fields, so every field takes its default. *)
Lemma analyze_content_42 :
  JSON_parse (utf16 "42") = Some (JNum (Dec 42 0)) /\
  analyzeText sampleEngine (answering 200 body42) key question =
    Returned {| answer := JStr NO_ANSWER;
                explanation := JStr NO_EXPLANATION;
                confidence := JNum (Dec 5 (-1)) |} /\
  analyzeText sampleEngine (answering 200 body42) key question <>
    Returned {| answer := JStr (utf16 "42");
                explanation := JStr FILLER;
                confidence := JNum (Dec 8 (-1)) |}.
Proof.
  split; [reflexivity|]. split; [vm_compute; reflexivity|].
  vm_compute. discriminate.
Qed.

Lemma analyze_returns_raw_content_witness :
  JSON_parse (utf16 "The answer is 42.") = None /\
  analyzeText sampleEngine (answering 200 bodyProse) key question =
    Returned {| answer := JStr (utf16 "The answer is 42.");
                explanation := JStr FILLER;
                confidence := JNum (Dec 8 (-1)) |}.
Proof.
  split; [vm_compute; reflexivity|].
  assert (key <> []) as Hkey by (vm_compute; discriminate).
  assert (JSON_parse bodyProse = Some (parsedOf bodyProse)) as Hparse
    by (vm_compute; reflexivity).
  assert (message_content sampleEngine (parsedOf bodyProse) =
          Returned (JStr (utf16 "The answer is 42."))) as Hcontent
    by (vm_compute; reflexivity).
  assert (JSON_parse (ToString sampleEngine (JStr (utf16 "The answer is 42.")))
          = None) as Hnot by (vm_compute; reflexivity).
  exact (analyze_returns_raw_content sampleEngine (answering 200 bodyProse)
           key question 200 bodyProse (parsedOf bodyProse)
           (JStr (utf16 "The answer is 42."))
           Hkey eq_refl eq_refl Hparse Hcontent Hnot).
Defined.

Lemma analyze_defaults_replace_falsy_fields_witness :
  exists r,
    analyzeText sampleEngine (answering 200 bodyFalsy) key question =
      Returned r /\
    answer r = JStr NO_ANSWER /\
    explanation r = JStr NO_EXPLANATION /\
    confidence r = JNum (Dec 5 (-1)).
Proof.
  assert (key <> []) as Hkey by (vm_compute; discriminate).
  assert (JSON_parse bodyFalsy = Some (parsedOf bodyFalsy)) as Hparse
    by (vm_compute; reflexivity).
  assert (message_content sampleEngine (parsedOf bodyFalsy) =
          Returned (JStr falsyContent)) as Hcontent
    by (vm_compute; reflexivity).
  assert (JSON_parse (ToString sampleEngine (JStr falsyContent)) =
          Some (parsedOf falsyContent)) as Hjson
    by (vm_compute; reflexivity).
  assert (parsedOf falsyContent <> JNull) as Hnull
    by (vm_compute; discriminate).
  destruct (analyze_defaults_replace_falsy_fields sampleEngine
              (answering 200 bodyFalsy) key question 200 bodyFalsy
              (parsedOf bodyFalsy) (JStr falsyContent) (parsedOf falsyContent)
              Hkey eq_refl eq_refl Hparse Hcontent Hjson)
    as (r & Hr & _ & _ & _ & Hdefaults).
  exists r. split; [exact Hr|].
  destruct (Hdefaults Hnull) as (Ha & He & Hc).
  rewrite Ha, He, Hc. vm_compute. repeat split.
Defined.

End CompletionClientExamples.

(* ===================================================================== *)
(** * The Text Recognition Adapter *)
(* ===================================================================== *)

Section CleanUp.
Import JS OCR.

Lemma replace_in_run (s : list N) :
  replace_ws_runs true s = replace_ws_runs false (trimStart s).
Proof.
  induction s as [|c s IH]; simpl; [reflexivity|].
  destruct (isWhiteSpace c) eqn:Hc; [exact IH|].
  simpl. rewrite Hc. reflexivity.
Qed.

Lemma replace_collapses (n : nat) : forall s : list N,
  (length s <= n)%nat -> replace_ws_runs false s = collapse_fuel n s.
Proof.
  induction n as [|n IH]; intros [|c s] Hlen; simpl in *; try reflexivity;
    [lia|].
  destruct (isWhiteSpace c).
  - rewrite replace_in_run, IH; [reflexivity|].
    pose proof (trimStart_length s). lia.
  - rewrite IH by lia. reflexivity.
Qed.

(** The first regular expression collapses the runs of whitespace. *)
Lemma replace_collapse_whitespace (s : list N) :
  replace_ws_runs false s = collapse_whitespace s.
Proof. apply replace_collapses. reflexivity. Qed.

Lemma replace_plain_spaces (b : bool) (s : list N) :
  Forall plain_space (replace_ws_runs b s).
Proof.
  revert b; induction s as [|c s IH]; intros b; simpl; [constructor|].
  destruct (isWhiteSpace c) eqn:Hc.
  - destruct b; [apply IH|]. constructor; [|apply IH]. intros _; reflexivity.
  - constructor; [|apply IH]. intros H. unfold plain_space in *. congruence.
Qed.

(** On the characters left by the first replacement, the character class of
    the second is the allowed set. *)
Lemma in_class_allowed (c : N) : plain_space c -> in_class c = allowed c.
Proof.
  unfold plain_space. intros Hsp.
  apply eq_true_iff_eq.
  destruct (isWhiteSpace c) eqn:Hws.
  - rewrite (Hsp eq_refl). reflexivity.
  - clear Hsp. assert (c <> 0x20) as Hne by (intros ->; discriminate).
    unfold in_class. rewrite Hws. clear Hws.
    unfold allowed, isWord, isDigit, ascii_alphanumeric, syllabary, kanji,
      punctuation, existsb.
    rewrite !orb_true_iff, !andb_true_iff, !N.leb_le, !N.eqb_eq.
    lia.
Qed.

Lemma filter_ext_Forall {A} (f g : A -> bool) (P : A -> Prop) (l : list A) :
  (forall x, P x -> f x = g x) ->
  Forall P l -> List.filter f l = List.filter g l.
Proof.
  intros Hfg Hl. induction Hl as [|x l Hx Hl IH]; simpl; [reflexivity|].
  rewrite (Hfg x Hx), IH. reflexivity.
Qed.

Lemma cleanText_described (raw : list N) :
  cleanText raw = trim (described_text raw).
Proof.
  unfold cleanText, described_text, remove_unlisted, strip_disallowed.
  rewrite <- replace_collapse_whitespace.
  f_equal. apply filter_ext_Forall with (P := plain_space).
  - apply in_class_allowed.
  - apply replace_plain_spaces.
Qed.

End CleanUp.

Section Confidence.
Import OCR.

Lemma SFcompare_not_both_Lt (x y : spec_float) :
  SFcompare x y = Some Lt -> SFcompare y x <> Some Lt.
Proof.
  destruct x as [sx|sx| |sx mx ex], y as [sy|sy| |sy my ey]; cbn [SFcompare];
    try destruct sx; try destruct sy; try discriminate.
  - destruct (Z.compare_spec ex ey), (Z.compare_spec ey ex); try lia;
      try discriminate.
    change (PosDef.Pos.compare_cont Eq my mx) with (Pos.compare my mx).
    change (PosDef.Pos.compare_cont Eq mx my) with (Pos.compare mx my).
    rewrite (Pos.compare_antisym mx my).
    destruct (Pos.compare mx my); simpl; discriminate.
  - destruct (Z.compare_spec ex ey), (Z.compare_spec ey ex); try lia;
      try discriminate.
    change (PosDef.Pos.compare_cont Eq my mx) with (Pos.compare my mx).
    change (PosDef.Pos.compare_cont Eq mx my) with (Pos.compare mx my).
    rewrite (Pos.compare_antisym mx my).
    destruct (Pos.compare mx my); simpl; discriminate.
Qed.

Lemma SFcompare_refl_not_Lt (a : spec_float) : SFcompare a a <> Some Lt.
Proof.
  destruct a as [s|s| |s m e]; cbn [SFcompare]; try destruct s;
    try discriminate;
    rewrite Z.compare_refl;
    change (PosDef.Pos.compare_cont Eq m m) with (Pos.compare m m);
    rewrite Pos.compare_refl; discriminate.
Qed.

(** [Math.max(a, y)] is never below [a], whatever [y] is. *)
Lemma Math_max_not_below (a y : spec_float) :
  a <> S754_zero true -> SFltb (Math_max a y) a = false.
Proof.
  intros Ha. pose proof (SFcompare_refl_not_Lt a) as Haa.
  unfold Math_max, SFltb.
  destruct (SFcompare a y) as [[| |]|] eqn:Hc.
  - match goal with
    | |- context [SFcompare ?r a] =>
        assert (r = a) as -> by (destruct a as [[]|s| |s m e]; congruence)
    end.
    destruct (SFcompare a a) as [[| |]|]; congruence.
  - pose proof (SFcompare_not_both_Lt _ _ Hc).
    destruct (SFcompare y a) as [[| |]|]; congruence.
  - destruct (SFcompare a a) as [[| |]|]; congruence.
  - reflexivity.
Qed.

(** C6 (amended): for every raw output of the engine, [recognizeText]
    returns the text obtained by collapsing the runs of whitespace to one
    space, removing every character outside the allowed set, and then
    trimming the whitespace at both ends; and a confidence that is never
    below 0.1. *)
Theorem recognize_cleans_trims_and_floors (raw : list N) (conf : spec_float) :
  exists r,
    recognizeText (RecognizeData raw conf) = JS.Returned r /\
    text r = JS.trim (described_text raw) /\
    SFltb (confidence r) lit_0_1 = false.
Proof.
  eexists; split; [reflexivity|]. simpl. split.
  - apply cleanText_described.
  - apply Math_max_not_below. discriminate.
Qed.

(** C6, as stated, fails: collapsing and removing leave the leading space
    of [" a"], which the code trims away. *)
Lemma recognize_leading_space :
  exists r,
    recognizeText (RecognizeData (JS.utf16 " a") Samples.conf87)
      = JS.Returned r /\
    text r = JS.utf16 "a" /\
    described_text (JS.utf16 " a") = JS.utf16 " a" /\
    text r <> described_text (JS.utf16 " a").
Proof.
  eexists; split; [reflexivity|]. vm_compute. repeat split; discriminate.
Qed.

End Confidence.

(* ===================================================================== *)
(** * The Capture Orchestrator *)
(* ===================================================================== *)

Section Periodic.
Import JS Camera.

Lemma looksLikeQuestion_iff (t : list N) :
  looksLikeQuestion t = true <->
  (10 < length t)%nat /\
  (In (ch "?") t \/ In 0xFF1F t \/ In (ch "=") t \/ In 0xFF1D t \/
   exists c, In c t /\ 0x30 <= c <= 0x39).
Proof.
  unfold looksLikeQuestion.
  rewrite !andb_true_iff, !orb_true_iff, !includes_char, test_digits_some,
    Nat.ltb_lt.
  split.
  - intros [[_ Hlen] H]. split; [exact Hlen | tauto].
  - intros [Hlen H]. split; [split; [|exact Hlen] | tauto].
    destruct t; [simpl in Hlen; lia | reflexivity].
Qed.

(** An attempt that gets as far as a recognised text sends it to the
    Completion Client exactly when it looks like a question. *)
Lemma sent_when_recognized (seen : Seen) (st : State) (w : World)
    (ocr : OCR.OCRResult) :
  cameraReady seen = true ->
  processingRef st = false ->
  (2000 <= now seen - capturedLastProcessTime seen)%Z ->
  photo w = PhotoUri ->
  recognized w = Returned ocr ->
  sent (run w (processCurrentFrame seen st)) =
    if looksLikeQuestion (OCR.text ocr) then [OCR.text ocr] else [].
Proof.
  intros Hcam Href Hgap Hphoto Hrec.
  unfold processCurrentFrame. rewrite Hcam, Href. simpl.
  destruct (Z.ltb_spec (now seen - capturedLastProcessTime seen) 2000); [lia|].
  simpl. rewrite Hphoto. simpl. rewrite Hrec. simpl.
  destruct (looksLikeQuestion (OCR.text ocr)); simpl; [|reflexivity].
  destruct (analysed w (OCR.text ocr)); simpl; [reflexivity|].
  unfold catch. destruct (_ || _); reflexivity.
Qed.

(** C3: in periodic mode a recognised text is forwarded to the Completion
    Client if and only if it is longer than 10 characters and contains [?],
    the full-width question mark, [=], the full-width equals sign, or a
    digit. *)
Theorem periodic_forwards_iff_question_like (seen : Seen) (st : State)
    (w : World) (ocr : OCR.OCRResult) :
  cameraReady seen = true ->
  processingRef st = false ->
  (2000 <= now seen - capturedLastProcessTime seen)%Z ->
  photo w = PhotoUri ->
  recognized w = Returned ocr ->
  In (OCR.text ocr) (sent (run w (processCurrentFrame seen st))) <->
  (10 < length (OCR.text ocr))%nat /\
  (In (ch "?") (OCR.text ocr) \/ In 0xFF1F (OCR.text ocr) \/
   In (ch "=") (OCR.text ocr) \/ In 0xFF1D (OCR.text ocr) \/
   exists c, In c (OCR.text ocr) /\ 0x30 <= c <= 0x39).
Proof.
  intros Hcam Href Hgap Hphoto Hrec.
  rewrite (sent_when_recognized seen st w ocr Hcam Href Hgap Hphoto Hrec).
  rewrite <- looksLikeQuestion_iff.
  destruct (looksLikeQuestion (OCR.text ocr)); simpl; split; auto; try tauto.
  discriminate.
Qed.

(** What the [catch] block does with each error kind of the Completion
    Client: the two messages it looks for are those of InvalidCredential
    and RateLimited. *)
Lemma catch_by_error_kind (st : State) :
  catch OpenAI.InvalidCredential st =
    finally (setRealtimeEnabled false st)
      [ConsoleError OpenAI.InvalidCredential;
       Alert (utf16 "API エラー") OpenAI.MSG_INVALID_KEY] /\
  catch OpenAI.RateLimited st =
    finally (setRealtimeEnabled false st)
      [ConsoleError OpenAI.RateLimited;
       Alert (utf16 "API エラー") OpenAI.MSG_RATE_LIMIT] /\
  catch OpenAI.QuotaExceeded st =
    finally st [ConsoleError OpenAI.QuotaExceeded] /\
  catch OpenAI.Forbidden st =
    finally st [ConsoleError OpenAI.Forbidden].
Proof.
  unfold catch.
  replace (includes (message OpenAI.InvalidCredential) (utf16 "API利用制限") ||
           includes (message OpenAI.InvalidCredential) (utf16 "APIキーが無効"))
    with true by (vm_compute; reflexivity).
  replace (includes (message OpenAI.RateLimited) (utf16 "API利用制限") ||
           includes (message OpenAI.RateLimited) (utf16 "APIキーが無効"))
    with true by (vm_compute; reflexivity).
  replace (includes (message OpenAI.QuotaExceeded) (utf16 "API利用制限") ||
           includes (message OpenAI.QuotaExceeded) (utf16 "APIキーが無効"))
    with false by (vm_compute; reflexivity).
  replace (includes (message OpenAI.Forbidden) (utf16 "API利用制限") ||
           includes (message OpenAI.Forbidden) (utf16 "APIキーが無効"))
    with false by (vm_compute; reflexivity).
  repeat split.
Qed.

End Periodic.

Section PeriodicExamples.
Import JS Camera Samples.

Lemma periodic_forwards_iff_question_like_witness :
  recognized (attempt 200 bodyProse) =
    Returned {| OCR.text := OCR.cleanText question;
                OCR.confidence :=
                  OCR.Math_max OCR.lit_0_1 (OCR.div conf87 OCR.lit_100) |} /\
  (In (OCR.cleanText question)
      (sent (run (attempt 200 bodyProse)
                 (processCurrentFrame seenReady realtimeOn))) <->
   (10 < length (OCR.cleanText question))%nat /\
   (In (ch "?") (OCR.cleanText question) \/
    In 0xFF1F (OCR.cleanText question) \/
    In (ch "=") (OCR.cleanText question) \/
    In 0xFF1D (OCR.cleanText question) \/
    exists c, In c (OCR.cleanText question) /\ 0x30 <= c <= 0x39)).
Proof.
  split; [reflexivity|].
  apply (periodic_forwards_iff_question_like seenReady realtimeOn
           (attempt 200 bodyProse)
           {| OCR.text := OCR.cleanText question;
              OCR.confidence :=
                OCR.Math_max OCR.lit_0_1 (OCR.div conf87 OCR.lit_100) |}).
  - reflexivity.
  - reflexivity.
  - simpl. lia.
  - reflexivity.
  - reflexivity.
Defined.

(** C1 fails on the code at a quota error: the attempt reaches the
    Completion Client, which fails with QuotaExceeded on a 429 carrying the
    code [insufficient_quota]; the error is logged, no alert is shown and
    periodic mode stays enabled. *)
Theorem periodic_quota_error_leaves_realtime_on :
  let r := run (attempt 429 quotaBody)
               (processCurrentFrame seenReady realtimeOn) in
  sent r = [OCR.cleanText question] /\
  trace r = [ConsoleError OpenAI.QuotaExceeded] /\
  realtimeEnabled (final r) = true.
Proof. vm_compute. repeat split. Qed.

(** The same happens for the Forbidden error of a 403. *)
Lemma periodic_forbidden_error_leaves_realtime_on :
  let r := run (attempt 403 forbiddenBody)
               (processCurrentFrame seenReady realtimeOn) in
  trace r = [ConsoleError OpenAI.Forbidden] /\
  realtimeEnabled (final r) = true.
Proof. vm_compute. repeat split. Qed.

(** An invalid key does stop periodic mode, with an alert. *)
Lemma periodic_invalid_key_stops_realtime :
  let r := run (attempt 401 forbiddenBody)
               (processCurrentFrame seenReady realtimeOn) in
  trace r = [ConsoleError OpenAI.InvalidCredential;
             Alert (utf16 "API エラー") OpenAI.MSG_INVALID_KEY] /\
  realtimeEnabled (final r) = false.
Proof. vm_compute. repeat split. Qed.

End PeriodicExamples.

Section Guard.
Import JS Camera.

Lemma finally_releases st effs : keeps_guard (finally st effs).
Proof. reflexivity. Qed.

Lemma catch_releases e st : keeps_guard (catch e st).
Proof. unfold catch. destruct (_ || _); reflexivity. Qed.

Lemma afterAnalyze_keeps ocr r st : keeps_guard (afterAnalyze ocr r st).
Proof. destruct r; simpl; [reflexivity | apply catch_releases]. Qed.

Lemma afterRecognize_keeps r st :
  processingRef st = true -> keeps_guard (afterRecognize r st).
Proof.
  intros Hst. destruct r as [ocr|e]; simpl; [|apply catch_releases].
  destruct (looksLikeQuestion _); [|reflexivity].
  simpl. split; [exact Hst|]. intros r st' _. apply afterAnalyze_keeps.
Qed.

Lemma afterPhoto_keeps p st :
  processingRef st = true -> keeps_guard (afterPhoto p st).
Proof.
  intros Hst. destruct p; simpl; [apply catch_releases | reflexivity |].
  split; [exact Hst|]. intros r st' Hst'. apply afterRecognize_keeps, Hst'.
Qed.

(** An invocation returns at once, or takes the guard and suspends on the
    photograph. *)
Lemma processCurrentFrame_cases seen st :
  processCurrentFrame seen st = Resume st [] Finished \/
  (processingRef st = false /\
   exists st',
     processCurrentFrame seen st =
       Resume st' [] (Await TakePicture afterPhoto) /\
     processingRef st' = true).
Proof.
  unfold processCurrentFrame.
  destruct (negb (cameraReady seen)); simpl; [left; reflexivity|].
  destruct (processingRef st) eqn:Href; [left; reflexivity|].
  destruct (_ <? _)%Z; [left; reflexivity|].
  right. split; [reflexivity|]. eexists; split; reflexivity.
Qed.

(** A tick that finds the guard set does nothing. *)
Lemma tick_skipped captured seen cfg :
  processingRef (state cfg) = true -> tick captured seen cfg = cfg.
Proof. intros H. unfold tick. rewrite H. reflexivity. Qed.

Lemma guarded_tick captured seen cfg :
  guarded cfg -> guarded (tick captured seen cfg).
Proof.
  intros Hinv. unfold tick.
  destruct (processingRef (state cfg)) eqn:Href; simpl; [exact Hinv|].
  destruct captured; simpl; [exact Hinv|].
  destruct Hinv as [[Hrun _]|(t & _ & Ht & _)]; [|congruence].
  destruct (processCurrentFrame_cases seen (state cfg))
    as [->|(_ & st' & -> & Hst')]; simpl.
  - left. split; assumption.
  - right. rewrite Hrun. eexists; split; [reflexivity|]. split; [exact Hst'|].
    intros r st Hst. apply afterPhoto_keeps, Hst.
Qed.

Lemma guarded_settle cfg i R (c : Call R) resume (r : R) :
  running cfg !! i = Some (Await c resume) ->
  guarded cfg -> guarded (resume_at i (resume r (state cfg)) cfg).
Proof.
  intros Hi [[Hrun _]|(t & Hrun & Href & Ht)]; rewrite Hrun in Hi.
  - discriminate.
  - destruct i as [|i]; [|discriminate]. simpl in Hi. injection Hi as ->.
    simpl in Ht. specialize (Ht r (state cfg) Href).
    destruct (resume r (state cfg)) as [st' effs [|R' c' resume']];
      simpl in *; rewrite Hrun; simpl.
    + left. split; [reflexivity | exact Ht].
    + right. eexists; split; [reflexivity|]. exact Ht.
Qed.

Lemma guarded_step cfg cfg' : step cfg cfg' -> guarded cfg -> guarded cfg'.
Proof.
  intros Hstep Hinv.
  destruct Hstep as [cfg cap seen|cfg i R c resume r Hi|cfg st' Hsame].
  - apply guarded_tick, Hinv.
  - eapply guarded_settle; eassumption.
  - unfold same_ref in Hsame.
    destruct Hinv as [[Hrun Href]|(t & Hrun & Href & Ht)]; [left|right]; simpl.
    + split; congruence.
    + exists t. repeat split; congruence.
Qed.

Lemma guarded_reachable cfg : rtc step initial cfg -> guarded cfg.
Proof.
  intros Hreach.
  apply (rtc_ind_r (R := step) (fun c => guarded c) initial);
    [left; split; reflexivity | | exact Hreach].
  intros y z _ Hstep IH. eapply guarded_step; eassumption.
Qed.

(** C8: in every configuration the component can reach, at most one
    periodic attempt is in flight; while one is, the guard is set and every
    tick of the timer leaves the configuration as it is, starting nothing
    and queueing nothing. *)
Theorem periodic_runs_never_overlap (cfg : Config) :
  rtc step initial cfg ->
  (length (running cfg) <= 1)%nat /\
  (running cfg = [] /\ processingRef (state cfg) = false \/
   length (running cfg) = 1%nat /\ processingRef (state cfg) = true /\
   forall capturedIsProcessing seen,
     tick capturedIsProcessing seen cfg = cfg).
Proof.
  intros Hreach.
  destruct (guarded_reachable cfg Hreach)
    as [[Hrun Href]|(t & Hrun & Href & _)]; rewrite Hrun; simpl.
  - split; [lia|]. left. split; reflexivity || assumption.
  - split; [lia|]. right. split; [reflexivity|]. split; [exact Href|].
    intros cap seen. apply tick_skipped, Href.
Qed.

Lemma periodic_runs_never_overlap_witness :
  let busy := tick false Samples.seenReady initial in
  rtc step initial busy /\
  (length (running busy) <= 1)%nat /\
  (running busy = [] /\ processingRef (state busy) = false \/
   length (running busy) = 1%nat /\ processingRef (state busy) = true /\
   forall capturedIsProcessing seen,
     tick capturedIsProcessing seen busy = busy).
Proof.
  split.
  - apply rtc_once, step_tick.
  - apply (periodic_runs_never_overlap (tick false Samples.seenReady initial)).
    apply rtc_once, step_tick.
Defined.

(** After that tick an attempt is indeed in flight. *)
Lemma tick_starts_attempt :
  running (tick false Samples.seenReady initial) =
    [Await TakePicture afterPhoto].
Proof. reflexivity. Qed.

End Guard.

(* ===================================================================== *)
(** * The Credential Store and the History Store *)
(* ===================================================================== *)

Section Credential.
Import JS App.

(** C5 (amended): for every credential that starts with [sk-], saving it
    and loading the settings again gives the value with its trailing
    whitespace trimmed, which is the value itself when it ends in no
    whitespace. *)
Theorem save_then_load_returns_trimmed (v : list N) (ui ui' : Settings)
    (sh : Shared) :
  v <> [] ->
  startsWith v (utf16 "sk-") = true ->
  let saved := fst (saveApiKey true (typeApiKey v ui) sh) in
  let loaded := loadSettings true saved ui' in
  strings (storage saved) !! OPENAI_API_KEY = Some (trim v) /\
  apiKey (snd loaded) = trim v /\
  serviceKey (fst loaded) = trim v /\
  ((forall c, last v = Some c -> isWhiteSpace c = false) ->
   apiKey (snd loaded) = v).
Proof.
  intros _ Hv saved loaded.
  destruct (trim_sk v Hv) as (t & Htrim & Hend).
  assert (saved = {| storage := setItem OPENAI_API_KEY (trim v) (storage sh);
                     serviceKey := trim v |}) as Hsaved.
  { subst saved. unfold saveApiKey, typeApiKey. simpl.
    rewrite Htrim, Hv. simpl. rewrite <- Htrim. reflexivity. }
  assert (strings (storage saved) !! OPENAI_API_KEY = Some (trim v)) as Hlook.
  { rewrite Hsaved. simpl. apply lookup_insert_eq. }
  assert (apiKey (snd loaded) = trim v /\ serviceKey (fst loaded) = trim v)
    as [Hui Hkey].
  { subst loaded. unfold loadSettings. simpl. rewrite Hlook, Htrim.
    destruct (strings (storage saved) !! AUTO_CAPTURE) as [[|c a]|];
      [| destruct (JSON_parse (c :: a)) |];
      try (destruct (strings (storage saved) !! SAVE_HISTORY) as [h|];
           [destruct (JSON_parse h)|]);
      simpl; split; reflexivity. }
  repeat split; try assumption.
  intros Hlast. rewrite Hui, Hend. apply trimEnd_id, Hlast.
Qed.

End Credential.

Section History.
Import JS App.

Lemma stored_append (a : Append) (sh : Shared) :
  stored (append sh a) =
    if readOk a && writeOk a then take 20 (item a :: stored sh) else stored sh.
Proof.
  unfold append, handleResult, stored, item.
  destruct (readOk a), (writeOk a); reflexivity.
Qed.

Lemma append_capped (a : Append) (sh : Shared) :
  (length (stored sh) <= 20)%nat -> (length (stored (append sh a)) <= 20)%nat.
Proof.
  intros H. rewrite stored_append.
  destruct (_ && _); [|exact H]. rewrite length_take. lia.
Qed.

Lemma appends_capped (l : list Append) : forall sh : Shared,
  (length (stored sh) <= 20)%nat ->
  (length (stored (appends l sh)) <= 20)%nat.
Proof.
  induction l as [|a l IH]; intros sh H; simpl; [exact H|].
  apply IH, append_capped, H.
Qed.

Lemma take_removelast {A} (l : list A) (n : nat) :
  length l = S n -> take n l = removelast l.
Proof.
  revert n; induction l as [|x l IH]; intros n Hlen; [discriminate|].
  simpl in Hlen. injection Hlen as Hlen.
  destruct l as [|y l]; [subst; reflexivity|].
  destruct n as [|n]; [discriminate|].
  change (x :: take n (y :: l) = x :: removelast (y :: l)).
  f_equal. apply IH. exact Hlen.
Qed.

(** C7: after any sequence of appends the stored history has at most 20
    entries; an append that goes through puts its item at the front of the
    entries already stored, and drops the last, oldest one when there were
    20 already. *)
Theorem history_capped_newest_first (l : list Append) (sh : Shared)
    (a : Append) :
  (length (stored sh) <= 20)%nat ->
  readOk a = true ->
  writeOk a = true ->
  let before := stored (appends l sh) in
  let after := stored (append (appends l sh) a) in
  (length before <= 20)%nat /\
  (length after <= 20)%nat /\
  after = item a :: (if (20 <=? length before)%nat
                     then removelast before else before).
Proof.
  intros Hcap Hr Hw before after.
  assert (length before <= 20)%nat as Hb by apply appends_capped, Hcap.
  split; [exact Hb|]. split; [apply append_capped, Hb|].
  subst after. rewrite stored_append, Hr, Hw. fold before.
  change (item a :: take 19 before = item a ::
            (if (20 <=? length before)%nat then removelast before else before)).
  f_equal. destruct (Nat.leb_spec 20 (length before)).
  - apply take_removelast. lia.
  - apply take_ge. lia.
Qed.

(** C10: with the save-history preference written as [false] by the
    settings screen, a result reported by the camera component is still
    put at the front of the stored history; the stored history after a
    result does not depend on what the [save_history] entry holds. *)
Theorem history_saved_regardless_of_preference (ui : Settings) (sh : Shared)
    (now : N) (ocr : OCR.OCRResult) (ai : OpenAI.Analysis) :
  let off := fst (toggleSaveHistory true false ui sh) in
  strings (storage off) !! SAVE_HISTORY = Some (utf16 "false") /\
  stored (deliver true true now (Camera.OnResult ocr ai) off) =
    take 20 ({| id := digits now; ocrResult := ocr; aiResponse := ai |}
             :: stored sh) /\
  forall value : list N,
    stored (deliver true true now (Camera.OnResult ocr ai)
              {| storage := setItem SAVE_HISTORY value (storage sh);
                 serviceKey := serviceKey sh |}) =
    stored (deliver true true now (Camera.OnResult ocr ai) sh).
Proof.
  simpl. split; [apply lookup_insert_eq|]. split; reflexivity.
Qed.

End History.

Section StoreExamples.
Import JS App Samples.

(** C5, as stated, fails: a key typed with a trailing space is stored, and
    loaded, without it. *)
Lemma save_then_load_trailing_space :
  utf16 "sk-abc " <> [] /\
  startsWith (utf16 "sk-abc ") (utf16 "sk-") = true /\
  apiKey (snd (loadSettings true
                 (fst (saveApiKey true
                         (typeApiKey (utf16 "sk-abc ") initialSettings)
                         emptyShared))
                 initialSettings)) = utf16 "sk-abc" /\
  utf16 "sk-abc" <> utf16 "sk-abc ".
Proof.
  split; [vm_compute; discriminate|]. split; [reflexivity|].
  split; [vm_compute; reflexivity | vm_compute; discriminate].
Qed.

Lemma save_then_load_returns_trimmed_witness :
  utf16 "sk-abc" <> [] /\
  startsWith (utf16 "sk-abc") (utf16 "sk-") = true /\
  apiKey (snd (loadSettings true
                 (fst (saveApiKey true
                         (typeApiKey (utf16 "sk-abc") initialSettings)
                         emptyShared))
                 initialSettings)) = trim (utf16 "sk-abc").
Proof.
  assert (utf16 "sk-abc" <> []) as Hne by (vm_compute; discriminate).
  refine (conj Hne (conj eq_refl _)).
  exact (proj1 (proj2 (save_then_load_returns_trimmed (utf16 "sk-abc")
                         initialSettings initialSettings emptyShared
                         Hne eq_refl))).
Defined.

(** Twenty-one results in a row: the list stays at 20 and the first result
    is the one that goes. *)
Lemma history_capped_newest_first_witness :
  (length (stored emptyShared) <= 20)%nat /\
  length (stored (appends twenty emptyShared)) = 20%nat /\
  stored (append (appends twenty emptyShared) (sampleAppend 21)) =
    item (sampleAppend 21)
      :: removelast (stored (appends twenty emptyShared)).
Proof.
  assert (length (stored emptyShared) <= 20)%nat as Hcap by (simpl; lia).
  split; [exact Hcap|]. split; [vm_compute; reflexivity|].
  exact (proj2 (proj2 (history_capped_newest_first twenty emptyShared
                         (sampleAppend 21) Hcap eq_refl eq_refl))).
Defined.

End StoreExamples.

(* ===================================================================== *)
(** * Further properties of the code *)
(* ===================================================================== *)

Section MoreCompletionClient.
Import JS OpenAI.
Variable E : Engine.
Variable fetch : Request -> FetchOutcome.
Variables apiKey text : list N.

(** The branch for a non-success status always throws. *)
Lemma fail_with_status_throws status body :
  exists e, fail_with_status E status body = Threw e.
Proof.
  unfold fail_with_status, response_json.
  destruct (JSON_parse body) as [errorData|]; simpl; [|eauto].
  destruct (status =? 401); [eauto|].
  destruct (status =? 429).
  { destruct (get E errorData _) as [err|e]; simpl; [|eauto].
    destruct (get_opt E err _) as [code|e]; simpl; [|eauto].
    destruct (strict_eq_str _ _); eauto. }
  destruct (status =? 403); [eauto|].
  destruct (get E errorData _) as [err|e]; simpl; [|eauto].
  destruct (get_opt E err _) as [m|e]; simpl; eauto.
Qed.

(** X1: [analyzeText] returns a result exactly when a key is set, the
    response has a success status, its body parses as JSON and
    [choices[0].message.content] can be read.  In particular it never
    returns on a non-success status, and once the content is read no
    content makes it throw. *)
Theorem analyze_returns_iff_content_read :
  (exists r, analyzeText E fetch apiKey text = Returned r) <->
  apiKey <> [] /\
  exists status body data content,
    fetch (request apiKey text) = Response status body /\
    ok status = true /\
    JSON_parse body = Some data /\
    message_content E data = Returned content.
Proof.
  split.
  - intros [r Hr]. unfold analyzeText in Hr.
    destruct apiKey as [|c k] eqn:Hkey; [discriminate|].
    split; [discriminate|].
    destruct (fetch _) as [e|status body] eqn:Hfetch; [discriminate|].
    destruct (ok status) eqn:Hok; simpl in Hr.
    + unfold response_json in Hr.
      destruct (JSON_parse body) as [data|] eqn:Hparse; [|discriminate].
      simpl in Hr.
      destruct (message_content E data) as [content|e] eqn:Hc; [|discriminate].
      exists status, body, data, content. auto.
    + destruct (fail_with_status_throws status body) as [e He].
      rewrite He in Hr. discriminate.
  - intros (Hkey & status & body & data & content & Hfetch & Hok & Hparse & Hc).
    rewrite (analyzeText_response E fetch apiKey text status body Hkey Hfetch).
    rewrite Hok. simpl. unfold response_json. rewrite Hparse. simpl.
    rewrite Hc. simpl. destruct (parsed_answer E content); eauto.
Qed.

(** X2: a success response whose [choices] is absent, [null] or an empty
    array makes [analyzeText] throw a TypeError: the raw-content fallback
    does not cover it. *)
Theorem analyze_without_choices_throws status body data :
  apiKey <> [] ->
  fetch (request apiKey text) = Response status body ->
  ok status = true ->
  JSON_parse body = Some data ->
  field data "choices" = JArr [] \/ field data "choices" = JNull \/
  field data "choices" = JUndefined ->
  exists m, analyzeText E fetch apiKey text = Threw (TypeError m).
Proof.
  intros Hkey Hfetch Hok Hparse Hchoices.
  rewrite (analyzeText_response E fetch apiKey text status body Hkey Hfetch).
  rewrite Hok. simpl. unfold response_json. rewrite Hparse. simpl.
  unfold message_content.
  pose proof (JSON_parse_defined _ _ Hparse) as Hdef.
  assert (data = JNull \/ data <> JNull) as [->|Hnull]
    by (destruct data; auto; right; discriminate).
  { simpl. eauto. }
  rewrite get_field by assumption. simpl.
  destruct Hchoices as [-> | [-> | ->]]; simpl; eauto.
Qed.

End MoreCompletionClient.

Section TrimFacts.
Import JS.

Lemma trimStart_Forall (P : N -> Prop) (s : list N) :
  Forall P s -> Forall P (trimStart s).
Proof.
  induction 1 as [|c s Hc Hs IH]; simpl; [constructor|].
  destruct (isWhiteSpace c); [exact IH | constructor; assumption].
Qed.

Lemma trim_Forall (P : N -> Prop) (s : list N) :
  Forall P s -> Forall P (trim s).
Proof.
  intros H. unfold trim, trimEnd.
  apply Forall_rev, trimStart_Forall, Forall_rev, trimStart_Forall, H.
Qed.

Lemma trimStart_head (s : list N) (c : N) :
  head (trimStart s) = Some c -> isWhiteSpace c = false.
Proof.
  induction s as [|d s IH]; simpl; [discriminate|].
  destruct (isWhiteSpace d) eqn:Hd; [exact IH|].
  simpl. intros [= <-]. exact Hd.
Qed.

Lemma trimStart_blank (s : list N) :
  Forall (fun c => isWhiteSpace c = true) s -> trimStart s = [].
Proof.
  induction 1 as [|c s Hc Hs IH]; simpl; [reflexivity|].
  rewrite Hc. exact IH.
Qed.

Lemma last_rev_head {A} (l : list A) : last (rev l) = head l.
Proof. destruct l as [|x l]; [reflexivity|]. simpl. apply last_snoc. Qed.

(** A trimmed string neither starts nor ends with whitespace. *)
Lemma trim_ends (s : list N) (c : N) :
  head (trim s) = Some c \/ last (trim s) = Some c -> isWhiteSpace c = false.
Proof.
  unfold trim. intros [Hh|Hl].
  - destruct (trimStart s) as [|d t] eqn:Hs; [discriminate|].
    assert (isWhiteSpace d = false) as Hd
      by (apply (trimStart_head s); rewrite Hs; reflexivity).
    destruct (trimEnd_keeps_prefix [] d t Hd) as [t' Ht]. simpl in Ht.
    rewrite Ht in Hh. injection Hh as <-. exact Hd.
  - unfold trimEnd in Hl. rewrite last_rev_head in Hl.
    eapply trimStart_head, Hl.
Qed.

End TrimFacts.

Section CleanedText.
Import JS OCR.

Lemma replace_ws_runs_blank (b : bool) (s : list N) :
  Forall (fun c => isWhiteSpace c = true \/ in_class c = false) s ->
  Forall (fun c => c = 0x20 \/ in_class c = false) (replace_ws_runs b s).
Proof.
  intros H. revert b. induction H as [|c s Hc Hs IH]; intros b; simpl;
    [constructor|].
  destruct (isWhiteSpace c) eqn:Hws.
  - destruct b; [apply IH|]. constructor; [left; reflexivity | apply IH].
  - constructor; [|apply IH]. destruct Hc; [congruence | right; assumption].
Qed.

Lemma remove_unlisted_blank (s : list N) :
  Forall (fun c => c = 0x20 \/ in_class c = false) s ->
  Forall (fun c => isWhiteSpace c = true) (remove_unlisted s).
Proof.
  unfold remove_unlisted.
  induction 1 as [|c s Hc Hs IH]; simpl; [constructor|].
  destruct (in_class c) eqn:Hin; [|exact IH].
  constructor; [|exact IH]. destruct Hc as [->|]; [reflexivity | congruence].
Qed.

(** A raw text made of whitespace and unlisted characters cleans to the
    empty string. *)
Lemma cleanText_blank (raw : list N) :
  Forall (fun c => isWhiteSpace c = true \/ in_class c = false) raw ->
  cleanText raw = [].
Proof.
  intros H. unfold cleanText, trim.
  rewrite (trimStart_blank (remove_unlisted _)); [reflexivity|].
  apply remove_unlisted_blank, replace_ws_runs_blank, H.
Qed.

Lemma replace_ws_runs_length (b : bool) (s : list N) :
  (length (replace_ws_runs b s) <= length s)%nat.
Proof.
  revert b; induction s as [|c s IH]; intros b; simpl; [lia|].
  destruct (isWhiteSpace c); [destruct b|]; simpl;
    try (pose proof (IH true)); try (pose proof (IH false)); lia.
Qed.

Lemma remove_unlisted_allowed (s : list N) :
  Forall plain_space s -> Forall (fun c => allowed c = true) (remove_unlisted s).
Proof.
  unfold remove_unlisted.
  induction 1 as [|c s Hc Hs IH]; simpl; [constructor|].
  destruct (in_class c) eqn:Hin; [|exact IH].
  constructor; [|exact IH]. rewrite <- (in_class_allowed c Hc). exact Hin.
Qed.

Lemma cleanText_allowed (raw : list N) :
  Forall (fun c => allowed c = true) (cleanText raw).
Proof. apply trim_Forall, remove_unlisted_allowed, replace_plain_spaces. Qed.

(** X3: whatever the engine reads, every character of the cleaned text is
    in the allowed set (the only whitespace being U+0020), the text neither
    starts nor ends with whitespace, and it is no longer than the raw
    text. *)
Theorem cleaned_text_allowed_and_trimmed (raw : list N) :
  Forall (fun c => allowed c = true) (cleanText raw) /\
  (forall c, head (cleanText raw) = Some c \/ last (cleanText raw) = Some c ->
             isWhiteSpace c = false) /\
  (length (cleanText raw) <= length raw)%nat.
Proof.
  split; [|split].
  - apply cleanText_allowed.
  - intros c. apply trim_ends.
  - unfold cleanText, trim, trimEnd, remove_unlisted.
    rewrite length_rev.
    pose proof (trimStart_length
                  (rev (trimStart (List.filter in_class
                                     (replace_ws_runs false raw))))) as H1.
    rewrite length_rev in H1.
    pose proof (trimStart_length
                  (List.filter in_class (replace_ws_runs false raw))) as H2.
    pose proof (List.filter_length_le in_class (replace_ws_runs false raw))
      as H3.
    pose proof (replace_ws_runs_length false raw). lia.
Qed.

End CleanedText.

Section ManualCapture.
Import JS Camera.
Local Arguments utf16 : simpl never.

Ltac same := match goal with |- ?x = ?x => reflexivity end.

Lemma manual_ends (w : World) (st : State) :
  Manual.ManualEnd w st (run w (Manual.takePictureAndAnalyze true false st)).
Proof.
  unfold Manual.takePictureAndAnalyze. simpl.
  destruct (photo w) as [e| |] eqn:Hp; simpl.
  - apply (Manual.end_photo_rejects w st e Hp).
  - apply (Manual.end_no_uri w st Hp).
  - destruct (recognized w) as [ocr|e] eqn:Hr; simpl.
    + destruct (Manual.tooShort (OCR.text ocr)) eqn:Hs; simpl.
      * apply (Manual.end_too_short w st ocr Hp Hr Hs).
      * destruct (analysed w (OCR.text ocr)) as [ai|e] eqn:Ha; simpl.
        -- apply (Manual.end_result w st ocr ai Hp Hr Hs Ha).
        -- apply (Manual.end_analysis_throws w st ocr e Hp Hr Hs Ha).
    + apply (Manual.end_recognize_throws w st e Hp Hr).
Qed.

(** X6: a manual capture that starts always ends with exactly one piece of
    feedback, an alert or a result, with [isProcessing] back to false; it
    touches neither the periodic guard nor periodic mode. *)
Theorem manual_capture_one_feedback (w : World) (st : State) :
  let r := run w (Manual.takePictureAndAnalyze true false st) in
  (Manual.alerts (trace r) + Manual.results (trace r) = 1)%nat /\
  isProcessing (final r) = false /\
  processingRef (final r) = processingRef st /\
  realtimeEnabled (final r) = realtimeEnabled st /\
  lastProcessTime (final r) = lastProcessTime st.
Proof.
  destruct (manual_ends w st); simpl; repeat split.
Qed.

(** X7: every alert of a manual capture has the title of an error and one
    of three fixed messages; the message of the error that was thrown is
    logged and never shown. *)
Theorem manual_alerts_are_generic (w : World) (st : State)
    (cameraReady capturedIsProcessing : bool) :
  Forall (fun e =>
            match e with
            | Alert title message =>
                title = Manual.TITLE_ERROR /\
                (message = Manual.MSG_PHOTO_FAILED \/
                 message = Manual.MSG_NO_TEXT \/
                 message = Manual.MSG_ANALYSIS_FAILED)
            | _ => True
            end)
    (trace (run w (Manual.takePictureAndAnalyze cameraReady
                     capturedIsProcessing st))).
Proof.
  destruct cameraReady, capturedIsProcessing;
    try (unfold Manual.takePictureAndAnalyze; simpl; constructor).
  destruct (manual_ends w st); simpl;
    repeat match goal with
           | |- Forall _ _ => constructor
           | |- True => exact I
           | |- _ /\ _ => split
           | |- ?x = ?x => reflexivity
           | |- ?x = ?x \/ _ => left; reflexivity
           | |- _ \/ ?x = ?x \/ _ => right; left; reflexivity
           | |- _ \/ _ \/ ?x = ?x => right; right; reflexivity
           end.
Qed.

(** X8: in manual mode a recognised text is sent to the Completion Client
    exactly when it has at least 2 characters. *)
Theorem manual_forwards_iff_two_chars (w : World) (st : State)
    (ocr : OCR.OCRResult) :
  photo w = PhotoUri ->
  recognized w = Returned ocr ->
  sent (run w (Manual.takePictureAndAnalyze true false st)) =
    if (2 <=? length (OCR.text ocr))%nat then [OCR.text ocr] else [].
Proof.
  intros Hp Hr.
  assert (Manual.tooShort (OCR.text ocr) =
          negb (2 <=? length (OCR.text ocr))%nat) as Hshort.
  { unfold Manual.tooShort. destruct (OCR.text ocr) as [|a [|b t]]; reflexivity. }
  destruct (2 <=? length (OCR.text ocr))%nat eqn:Hlen; simpl in Hshort;
    destruct (manual_ends w st)
      as [e H|H|e H H'|o H H' Hs|o e H H' Hs _|o ai H H' Hs _];
    cbn [sent]; try congruence;
    rewrite Hr in H'; injection H' as <-; congruence.
Qed.

End ManualCapture.

Section PeriodicMore.
Import JS Camera.
Local Arguments utf16 : simpl never.

(** Every way a periodic attempt can go, once it has started. *)
Ltac periodic_cases w :=
  unfold afterPhoto, afterRecognize, afterAnalyze, catch, finally;
  destruct (photo w) as [?e| |] eqn:?Hphoto; simpl;
  [ destruct (_ || _); simpl
  |
  | destruct (recognized w) as [?ocr|?e] eqn:?Hrec; simpl;
    [ destruct (looksLikeQuestion (OCR.text ocr)) eqn:?Hlook; simpl;
      [ destruct (analysed w (OCR.text ocr)) as [?ai|?e] eqn:?Han; simpl;
        [ | destruct (_ || _); simpl ]
      | ]
    | destruct (_ || _); simpl ] ].

Lemma processCurrentFrame_started (seen : Seen) (st : State) :
  cameraReady seen = true ->
  processingRef st = false ->
  (2000 <= now seen - capturedLastProcessTime seen)%Z ->
  processCurrentFrame seen st =
    Resume (setLastProcessTime (now seen) (setProcessingRef true st)) []
      (Await TakePicture afterPhoto).
Proof.
  intros Hcam Href Hgap. unfold processCurrentFrame.
  rewrite Hcam, Href. simpl.
  destruct (Z.ltb_spec (now seen - capturedLastProcessTime seen) 2000);
    [lia | reflexivity].
Qed.

Lemma processCurrentFrame_skipped (seen : Seen) (st : State) :
  cameraReady seen = false \/ processingRef st = true \/
  (now seen - capturedLastProcessTime seen < 2000)%Z ->
  processCurrentFrame seen st = Resume st [] Finished.
Proof.
  intros H. unfold processCurrentFrame.
  destruct (cameraReady seen); simpl; [|reflexivity].
  destruct (processingRef st); [reflexivity|].
  destruct (Z.ltb_spec (now seen - capturedLastProcessTime seen) 2000);
    [reflexivity|].
  destruct H as [H|[H|H]]; try discriminate. lia.
Qed.

Lemma processCurrentFrame_either (seen : Seen) (st : State) :
  processCurrentFrame seen st = Resume st [] Finished \/
  processCurrentFrame seen st =
    Resume (setLastProcessTime (now seen) (setProcessingRef true st)) []
      (Await TakePicture afterPhoto).
Proof.
  unfold processCurrentFrame.
  destruct (negb (cameraReady seen) || processingRef st); [left; reflexivity|].
  destruct (_ <? _)%Z; [left | right]; reflexivity.
Qed.

(** X9: a periodic attempt that finds the guard free leaves it free at its
    end, whatever the camera, the recogniser and the network do; it either
    did nothing or ends with [isProcessing] false and the time of the
    attempt recorded. *)
Theorem periodic_attempt_releases_guard (seen : Seen) (st : State) (w : World) :
  processingRef st = false ->
  let r := run w (processCurrentFrame seen st) in
  processingRef (final r) = false /\
  (final r = st \/
   isProcessing (final r) = false /\ lastProcessTime (final r) = now seen).
Proof.
  intros Href. cbv zeta.
  destruct (processCurrentFrame_either seen st) as [-> | ->]; simpl.
  - split; [exact Href | left; reflexivity].
  - periodic_cases w; (split; [reflexivity | right; split; reflexivity]).
Qed.

(** X10: a periodic attempt that gets an analysis reports exactly that
    result, once, and switches periodic mode off. *)
Theorem periodic_result_stops_periodic_mode (seen : Seen) (st : State)
    (w : World) (ocr : OCR.OCRResult) (ai : OpenAI.Analysis) :
  cameraReady seen = true ->
  processingRef st = false ->
  (2000 <= now seen - capturedLastProcessTime seen)%Z ->
  photo w = PhotoUri ->
  recognized w = Returned ocr ->
  looksLikeQuestion (OCR.text ocr) = true ->
  analysed w (OCR.text ocr) = Returned ai ->
  let r := run w (processCurrentFrame seen st) in
  trace r = [OnResult ocr ai] /\
  sent r = [OCR.text ocr] /\
  realtimeEnabled (final r) = false /\
  processingRef (final r) = false /\
  isProcessing (final r) = false.
Proof.
  intros Hcam Href Hgap Hp Hr Hl Ha.
  rewrite (processCurrentFrame_started seen st Hcam Href Hgap). simpl.
  rewrite Hp. simpl. rewrite Hr. simpl. rewrite Hl. simpl. rewrite Ha. simpl.
  repeat split.
Qed.

(** X11: a periodic attempt shows at most one alert or result, and it
    switches periodic mode off exactly when it shows one: periodic mode
    never stops silently and never goes on after an alert. *)
Theorem periodic_stops_only_with_feedback (seen : Seen) (st : State)
    (w : World) :
  let r := run w (processCurrentFrame seen st) in
  let shown := (Manual.alerts (trace r) + Manual.results (trace r))%nat in
  (shown <= 1)%nat /\
  realtimeEnabled (final r) =
    if (shown =? 0)%nat then realtimeEnabled st else false.
Proof.
  cbv zeta.
  destruct (processCurrentFrame_either seen st) as [-> | ->]; simpl.
  - split; [unfold Manual.alerts, Manual.results; simpl; lia | reflexivity].
  - periodic_cases w;
      (split; [unfold Manual.alerts, Manual.results; simpl; lia
              | reflexivity]).
Qed.

(** The three errors of the recognition adapter carry neither of the texts
    the [catch] block looks for. *)
Lemma recognizer_errors_pass (wk : OCR.Worker) (e : JSError) (st : State) :
  OCR.recognizeText wk = Threw e -> catch e st = finally st [ConsoleError e].
Proof.
  destruct wk; simpl; try discriminate; intros [= <-]; unfold catch;
    match goal with
    | |- context [?a || ?b] =>
        replace (a || b) with false by (vm_compute; reflexivity)
    end; reflexivity.
Qed.

(** X12: when the recognition adapter fails in a periodic attempt, with any
    of its errors, the error is only logged: nothing is sent, nothing is
    shown, the guard is released and periodic mode stays as it was. *)
Theorem periodic_recognition_error_is_silent (seen : Seen) (st : State)
    (w : World) (wk : OCR.Worker) (e : JSError) :
  cameraReady seen = true ->
  processingRef st = false ->
  (2000 <= now seen - capturedLastProcessTime seen)%Z ->
  photo w = PhotoUri ->
  recognized w = OCR.recognizeText wk ->
  OCR.recognizeText wk = Threw e ->
  let r := run w (processCurrentFrame seen st) in
  trace r = [ConsoleError e] /\
  sent r = [] /\
  realtimeEnabled (final r) = realtimeEnabled st /\
  processingRef (final r) = false.
Proof.
  intros Hcam Href Hgap Hp Hr He.
  rewrite (processCurrentFrame_started seen st Hcam Href Hgap). simpl.
  rewrite Hp. simpl. rewrite Hr, He.
  change (afterRecognize (Threw e)
            (setLastProcessTime (now seen) (setProcessingRef true st)))
    with (catch e (setLastProcessTime (now seen) (setProcessingRef true st))).
  rewrite (recognizer_errors_pass wk e _ He). simpl. repeat split.
Qed.

End PeriodicMore.

Section FullWidth.
Import JS OCR Camera.

Lemma not_allowed_not_included (t : list N) (c : N) :
  Forall (fun c => allowed c = true) t -> allowed c = false ->
  includes t [c] = false.
Proof.
  intros Hall Hc. destruct (includes t [c]) eqn:Hi; [|reflexivity].
  apply includes_char in Hi. rewrite Forall_forall in Hall.
  rewrite (Hall c) in Hc; [discriminate|]. apply list_elem_of_In, Hi.
Qed.

End FullWidth.

Section Timers.
Import Timer.

Lemma clearInterval_only (h : nat) : clearInterval h [h] = [].
Proof. unfold clearInterval. simpl. rewrite Nat.eqb_refl. reflexivity. Qed.

Lemma tidy_apply (t : Timers) (o : Op) : tidy t -> tidy (apply_op t o).
Proof.
  unfold tidy. destruct o; simpl;
    unfold startRealtimeProcessing, stopRealtimeProcessing;
    destruct (intervalRef t) as [h|] eqn:Href; simpl; rewrite ?Href; auto.
  - intros ->. split; [reflexivity | lia].
  - intros [-> _]. apply clearInterval_only.
Qed.

(** X13: after any sequence of [startRealtimeProcessing] and
    [stopRealtimeProcessing] at most one interval timer is alive, and it is
    the one [intervalRef] names; with [intervalRef] empty none is. *)
Theorem timers_never_leak (ops : list Op) :
  let t := fold_left apply_op ops initial in
  tidy t /\ (length (live t) <= 1)%nat /\
  (intervalRef t = None <-> live t = []).
Proof.
  assert (tidy (fold_left apply_op ops initial)) as Ht.
  { assert (tidy initial) as H0 by reflexivity.
    revert H0. generalize initial.
    induction ops as [|o ops IH]; intros t Ht; simpl; [exact Ht|].
    apply IH, tidy_apply, Ht. }
  simpl. split; [exact Ht|]. unfold tidy in Ht.
  destruct (intervalRef _) as [h|]; [destruct Ht as [-> _]|rewrite Ht]; simpl;
    (split; [lia|]); split; congruence.
Qed.

End Timers.

Section WorkerLifeCycle.
Import JS OCRService.
Local Arguments utf16 : simpl never.

Lemma settled_fresh : settled fresh.
Proof. split; [reflexivity | discriminate]. Qed.

Lemma initialize_settled (c : Creation) (s : Service) :
  settled s ->
  exists s' out, initialize c s = Some (s', out) /\ settled s' /\
    match out with
    | Returned _ => isInitialized s' = true
    | Threw e => e = Error OCR.MSG_INIT_FAILED /\ isInitialized s' = false
    end.
Proof.
  intros [Hing Hw]. unfold initialize.
  destruct (isInitialized s) eqn:Hed.
  - exists s, (Returned tt). repeat split; auto.
  - rewrite Hing. destruct c as [|w|w]; eexists _, _;
      (split; [reflexivity|]); unfold settled; simpl;
      repeat split; try discriminate; auto.
Qed.

Lemma recognize_settled (c : Creation) (r : Recognition) (s : Service) :
  settled s ->
  exists s' out, recognizeText c r s = Some (s', out) /\ settled s' /\
    match out with
    | Returned res =>
        isInitialized s' = true /\
        exists raw conf,
          r = Data raw conf /\
          res = {| OCR.text := OCR.cleanText raw;
                   OCR.confidence :=
                     OCR.Math_max OCR.lit_0_1 (OCR.div conf OCR.lit_100) |}
    | Threw e =>
        e = Error OCR.MSG_INIT_FAILED /\ isInitialized s' = false \/
        e = Error OCR.MSG_RECOGNITION_FAILED /\ r = Rejects /\
        isInitialized s' = true
    end.
Proof.
  intros Hs. unfold recognizeText.
  assert (forall s0, settled s0 -> isInitialized s0 = true ->
            exists out, OCR.recognizeText (at_worker s0 r) = out /\
              match out with
              | Returned res =>
                  isInitialized s0 = true /\
                  exists raw conf,
                    r = Data raw conf /\
                    res = {| OCR.text := OCR.cleanText raw;
                             OCR.confidence :=
                               OCR.Math_max OCR.lit_0_1
                                 (OCR.div conf OCR.lit_100) |}
              | Threw e =>
                  e = Error OCR.MSG_INIT_FAILED /\ isInitialized s0 = false \/
                  e = Error OCR.MSG_RECOGNITION_FAILED /\ r = Rejects /\
                  isInitialized s0 = true
              end) as Hready.
  { intros s0 [_ Hw] Hed. unfold at_worker.
    destruct (worker s0) as [h|]; [|exfalso; apply (Hw Hed); reflexivity].
    destruct r as [|raw conf]; eexists; (split; [reflexivity|]); simpl.
    - right. auto.
    - split; [exact Hed|]. eauto. }
  destruct (isInitialized s) eqn:Hed.
  - destruct (Hready s Hs Hed) as (out & <- & Hout). eauto.
  - destruct (initialize_settled c s Hs) as (s' & out & -> & Hs' & Hout).
    destruct out as [[]|e].
    + destruct (Hready s' Hs' Hout) as (out & <- & Hout'). eauto.
    + destruct Hout as [-> Hno]. eexists _, _. split; [reflexivity|].
      split; [exact Hs'|]. simpl. left. auto.
Qed.

Lemma terminate_settled (s : Service) : settled s -> terminate s = fresh.
Proof.
  intros [Hing Hw]. unfold terminate.
  destruct s as [[h|] ed ing]; simpl in *; [reflexivity|].
  subst ing. destruct ed; [exfalso; apply Hw; reflexivity | reflexivity].
Qed.

Lemma call_settled (k : Call) (s : Service) :
  settled s -> exists s', call s k = Some s' /\ settled s'.
Proof.
  intros Hs. destruct k as [c|c r|]; simpl.
  - destruct (initialize_settled c s Hs) as (s' & out & -> & Hs' & _). eauto.
  - destruct (recognize_settled c r s Hs) as (s' & out & -> & Hs' & _). eauto.
  - rewrite (terminate_settled s Hs). eauto using settled_fresh.
Qed.

Lemma calls_settled (l : list Call) : forall s,
  settled s -> exists s', calls l s = Some s' /\ settled s'.
Proof.
  induction l as [|k l IH]; intros s Hs; simpl; [eauto|].
  destruct (call_settled k s Hs) as (s1 & -> & Hs1). apply IH, Hs1.
Qed.

(** X14: used one call at a time, from its initial state, the recognition
    service completes every call of any sequence (the wait on
    [isInitializing] is never entered), is never left initialising, holds a
    worker whenever it says it is initialised, and [terminate] brings it
    back to its initial state. *)
Theorem service_calls_always_complete (l : list Call) :
  exists s, calls l fresh = Some s /\
            isInitializing s = false /\
            (isInitialized s = true -> worker s <> None) /\
            terminate s = fresh.
Proof.
  destruct (calls_settled l fresh settled_fresh) as (s & Hs & Hset).
  exists s. split; [exact Hs|]. destruct Hset as [H1 H2].
  repeat split; auto. apply terminate_settled. split; assumption.
Qed.

(** X15: after any sequence of calls, [recognizeText] ends in one of three
    ways: the cleaned text with the floored confidence, the
    initialisation error with the service left uninitialised, or the
    recognition error when the worker rejects.  The missing-worker error
    never occurs. *)
Theorem recognize_outcomes (l : list Call) (s : Service) (c : Creation)
    (r : Recognition) :
  calls l fresh = Some s ->
  exists s' out,
    recognizeText c r s = Some (s', out) /\
    out <> Threw (Error OCR.MSG_NO_WORKER) /\
    match out with
    | Returned res =>
        isInitialized s' = true /\
        exists raw conf,
          r = Data raw conf /\
          res = {| OCR.text := OCR.cleanText raw;
                   OCR.confidence :=
                     OCR.Math_max OCR.lit_0_1 (OCR.div conf OCR.lit_100) |}
    | Threw e =>
        e = Error OCR.MSG_INIT_FAILED /\ isInitialized s' = false \/
        e = Error OCR.MSG_RECOGNITION_FAILED /\ r = Rejects /\
        isInitialized s' = true
    end.
Proof.
  intros Hl.
  destruct (calls_settled l fresh settled_fresh) as (s0 & Hs0 & Hset).
  rewrite Hl in Hs0. injection Hs0 as <-.
  destruct (recognize_settled c r s Hset) as (s' & out & Hrec & _ & Hout).
  exists s', out. split; [exact Hrec|]. split; [|exact Hout].
  destruct out as [res|e]; [discriminate|].
  destruct Hout as [[-> _]|[-> _]]; intros [= H]; revert H;
    vm_compute; discriminate.
Qed.

(** X16: no failure sticks: after any sequence of calls, a
    [recognizeText] whose worker creation and recognition go well returns
    the result; an initialised service is left untouched (no new worker),
    an uninitialised one takes the worker just created. *)
Theorem service_recovers (l : list Call) (s : Service) (w : nat)
    (raw : list N) (conf : spec_float) :
  calls l fresh = Some s ->
  exists s',
    recognizeText (Created w) (Data raw conf) s =
      Some (s', Returned {| OCR.text := OCR.cleanText raw;
                            OCR.confidence :=
                              OCR.Math_max OCR.lit_0_1
                                (OCR.div conf OCR.lit_100) |}) /\
    isInitialized s' = true /\
    (isInitialized s = true -> s' = s) /\
    (isInitialized s = false -> worker s' = Some w).
Proof.
  intros Hl.
  destruct (calls_settled l fresh settled_fresh) as (s0 & Hs0 & [Hing Hw]).
  rewrite Hl in Hs0. injection Hs0 as <-.
  unfold recognizeText, initialize. destruct (isInitialized s) eqn:Hed.
  - exists s. unfold at_worker.
    destruct (worker s) as [h|]; [|exfalso; apply (Hw eq_refl); reflexivity].
    repeat split; auto. discriminate.
  - rewrite Hing. eexists. split; [reflexivity|]. simpl.
    repeat split; auto. discriminate.
Qed.

End WorkerLifeCycle.

Section KeyScreens.
Import JS App Screens.
Local Arguments utf16 : simpl never.

(** X17: [saveApiKey] leaves storage and the service's key untouched, and
    shows one error alert, when the key is blank, does not start with
    [sk-] as typed, or the write fails. *)
Theorem save_rejects_invalid_key (writeOk : bool) (ui : Settings)
    (sh : Shared) :
  trim (apiKey ui) = [] \/ startsWith (apiKey ui) (utf16 "sk-") = false \/
  writeOk = false ->
  fst (saveApiKey writeOk ui sh) = sh /\
  exists m, snd (saveApiKey writeOk ui sh) = [AlertBox (utf16 "エラー") m].
Proof.
  intros H. unfold saveApiKey.
  destruct (trim (apiKey ui)) as [|c t]; [simpl; eauto|].
  destruct (startsWith (apiKey ui) (utf16 "sk-")); simpl; [|eauto].
  destruct writeOk; simpl; [|eauto].
  destruct H as [H|[H|H]]; discriminate.
Qed.


(** X19: a key saved on the settings screen is the trimmed key the camera
    screen loads, and the camera is then offered. *)
Theorem saved_key_enables_camera (v : list N) (ui : Settings) (sh : Shared) :
  startsWith v (utf16 "sk-") = true ->
  let saved := fst (saveApiKey true (typeApiKey v ui) sh) in
  let loaded := loadApiKey true saved in
  snd loaded = trim v /\
  serviceKey (fst loaded) = trim v /\
  hasValidApiKey (snd loaded) (fst loaded) = true.
Proof.
  intros Hv saved loaded.
  destruct (trim_sk v Hv) as (t & Htrim & _).
  assert (saved = {| storage := setItem OPENAI_API_KEY (trim v) (storage sh);
                     serviceKey := trim v |}) as Hsaved.
  { subst saved. unfold saveApiKey, typeApiKey. simpl.
    rewrite Htrim, Hv. simpl. rewrite <- Htrim. reflexivity. }
  subst loaded. unfold loadApiKey. simpl. rewrite Hsaved. simpl.
  rewrite lookup_insert_eq, Htrim. repeat split.
Qed.

(** X20: a confirmed deletion of the key removes it from storage, from
    the service and from the text field, so that both screens load no key
    afterwards, and touches no other entry; a cancelled or failed deletion
    changes nothing. *)
Theorem deleted_key_is_gone (ui : Settings) (sh : Shared) :
  let '(sh', ui', _) := deleteApiKey Confirm true ui sh in
  strings (storage sh') !! OPENAI_API_KEY = None /\
  hasApiKey sh' = false /\
  apiKey ui' = [] /\
  loadApiKey true sh' = (sh', []) /\
  hasValidApiKey (snd (loadApiKey true sh')) (fst (loadApiKey true sh')) = false /\
  apiKey (snd (loadSettings true sh' initialSettings)) = [] /\
  (forall k, k <> OPENAI_API_KEY ->
             strings (storage sh') !! k = strings (storage sh) !! k) /\
  history (storage sh') = history (storage sh) /\
  fst (deleteApiKey Cancel true ui sh) = (sh, ui) /\
  fst (deleteApiKey Confirm false ui sh) = (sh, ui).
Proof.
  simpl.
  assert (delete OPENAI_API_KEY (strings (storage sh)) !! OPENAI_API_KEY = None)
    as Hgone by apply lookup_delete_eq.
  unfold loadApiKey, loadSettings. simpl. rewrite Hgone.
  repeat split.
  - destruct (_ !! AUTO_CAPTURE) as [[|c a]|];
      [| destruct (JSON_parse (c :: a)) |];
      try (destruct (_ !! SAVE_HISTORY) as [h|]; [destruct (JSON_parse h)|]);
      reflexivity.
  - intros k Hk. apply lookup_delete_ne. congruence.
Qed.

(** X21: a confirmed deletion of all data leaves no key, no preference and
    no history stored and resets the settings to their defaults, which is
    also what loading gives afterwards.  The history screen, though, keeps
    showing its list when it reloads: [loadHistory] only replaces the list
    when one is stored. *)
Theorem clear_all_resets (ui : Settings) (sh : Shared)
    (shownBefore : list HistoryItem) (readOk : bool) :
  let '(sh', ui', _) := clearAllData Confirm true ui sh in
  ui' = initialSettings /\
  hasApiKey sh' = false /\
  stored sh' = [] /\
  strings (storage sh') !! OPENAI_API_KEY = None /\
  strings (storage sh') !! AUTO_CAPTURE = None /\
  strings (storage sh') !! SAVE_HISTORY = None /\
  loadSettings true sh' initialSettings = (sh', initialSettings) /\
  loadApiKey true sh' = (sh', []) /\
  loadHistory readOk sh' shownBefore = shownBefore.
Proof.
  simpl.
  assert (forall m : gmap string (list N),
    let m' := delete SAVE_HISTORY (delete AUTO_CAPTURE
                (delete OPENAI_API_KEY m)) in
    m' !! OPENAI_API_KEY = None /\ m' !! AUTO_CAPTURE = None /\
    m' !! SAVE_HISTORY = None) as Hgone.
  { intros m. simpl. repeat split.
    - rewrite !lookup_delete_ne by discriminate. apply lookup_delete_eq.
    - rewrite lookup_delete_ne by discriminate. apply lookup_delete_eq.
    - apply lookup_delete_eq. }
  destruct (Hgone (strings (storage sh))) as (H1 & H2 & H3).
  unfold loadSettings, loadApiKey, loadHistory, stored. simpl.
  rewrite H1, H2, H3. destruct readOk; repeat split.
Qed.

(** X22: the two preferences round-trip: after both switches are set,
    loading the settings gives back the two values, and the stored key is
    not affected. *)
Theorem toggles_round_trip (auto save : bool) (ui ui' : Settings)
    (sh : Shared) :
  let sh1 := fst (toggleAutoCapture true auto ui sh) in
  let sh2 := fst (toggleSaveHistory true save ui sh1) in
  let loaded := snd (loadSettings true sh2 ui') in
  autoCapture loaded = JBool auto /\
  saveHistory loaded = JBool save /\
  strings (storage sh2) !! OPENAI_API_KEY =
    strings (storage sh) !! OPENAI_API_KEY.
Proof.
  simpl. unfold loadSettings. simpl.
  assert (forall b, exists c t, stringify_bool b = c :: t /\
                               JSON_parse (c :: t) = Some (JBool b)) as Hbool.
  { intros [|]; eexists _, _; (split; [vm_compute; reflexivity|]);
      vm_compute; reflexivity. }
  destruct (Hbool auto) as (ca & ta & Ha & Hpa).
  destruct (Hbool save) as (cs & ts & Hs & Hps).
  rewrite lookup_insert_eq.
  rewrite (lookup_insert_ne _ SAVE_HISTORY AUTO_CAPTURE) by discriminate.
  rewrite lookup_insert_eq.
  rewrite !(lookup_insert_ne _ _ OPENAI_API_KEY) by discriminate.
  rewrite Ha, Hpa, Hs, Hps.
  destruct (strings (storage sh) !! OPENAI_API_KEY) as [[|c k]|];
    repeat split.
Qed.

End KeyScreens.

Section HistoryScreens.
Import JS App Screens.

(** X23: a result the camera screen stored is the first entry the history
    screen loads, followed by the entries stored before (at most 19 of
    them). *)
Theorem appended_result_heads_history (a : Append) (sh : Shared)
    (shownBefore : list HistoryItem) :
  readOk a = true ->
  writeOk a = true ->
  loadHistory true (append sh a) shownBefore = item a :: take 19 (stored sh).
Proof.
  intros Hr Hw. unfold loadHistory, append, handleResult.
  rewrite Hr, Hw. reflexivity.
Qed.

Lemma str_eqb_eq (s t : list N) : str_eqb s t = true <-> s = t.
Proof.
  revert t; induction s as [|c s IH]; intros [|d t]; simpl;
    try (split; congruence).
  rewrite andb_true_iff, N.eqb_eq, IH. split.
  - intros [-> ->]; reflexivity.
  - intros [= -> ->]; auto.
Qed.

Lemma other_id_true (itemId : list N) (it : HistoryItem) :
  other_id itemId it = true <-> id it <> itemId.
Proof.
  unfold other_id. rewrite negb_true_iff.
  destruct (str_eqb (id it) itemId) eqn:H.
  - apply str_eqb_eq in H. split; [discriminate | congruence].
  - split; [|reflexivity]. intros _ Heq.
    apply str_eqb_eq in Heq. congruence.
Qed.

(** X24: a confirmed deletion keeps exactly the displayed entries with
    another id, in their order, and stores that list, which is what a
    reload shows; the list stored before plays no part.  When the write
    fails the screen shows the same filtered list and storage is
    unchanged. *)
Theorem delete_item_removes_id (itemId : list N) (shownBefore : list HistoryItem)
    (sh : Shared) (shownLater : list HistoryItem) :
  let '(sh', l) := deleteItem Confirm true itemId shownBefore sh in
  (forall it, In it l <-> In it shownBefore /\ id it <> itemId) /\
  sublist l shownBefore /\
  stored sh' = l /\
  loadHistory true sh' shownLater = l /\
  strings (storage sh') = strings (storage sh) /\
  storage (fst (deleteItem Confirm false itemId shownBefore sh)) = storage sh /\
  snd (deleteItem Confirm false itemId shownBefore sh) = l.
Proof.
  simpl.
  refine (conj _ (conj _ (conj eq_refl (conj eq_refl (conj eq_refl
            (conj eq_refl eq_refl)))))).
  - intros it. rewrite List.filter_In, other_id_true. reflexivity.
  - induction shownBefore as [|x l IH]; simpl; [constructor|].
    destruct (other_id itemId x); [apply sublist_skip | apply sublist_cons];
      exact IH.
Qed.

(** X25: after a confirmed clearing of the history nothing is stored or
    displayed, a reload shows the empty list, and the string entries are
    untouched; a cancelled or failed clearing changes nothing. *)
Theorem clear_history_then_load (shownBefore : list HistoryItem)
    (sh : Shared) (readOk : bool) :
  let '(sh', l) := clearHistory Confirm true shownBefore sh in
  l = [] /\ stored sh' = [] /\
  loadHistory readOk sh' l = [] /\
  strings (storage sh') = strings (storage sh) /\
  clearHistory Confirm false shownBefore sh = (sh, shownBefore) /\
  clearHistory Cancel true shownBefore sh = (sh, shownBefore).
Proof.
  simpl. unfold loadHistory. simpl. destruct readOk; repeat split.
Qed.

Lemma history_step_capped (s : HistoryState) (e : HistoryEvent) :
  (length (stored (shared s)) <= 20)%nat /\ (length (shown s) <= 20)%nat ->
  (length (stored (shared (history_step s e))) <= 20)%nat /\
  (length (shown (history_step s e)) <= 20)%nat.
Proof.
  intros [Hst Hsh]. destruct e as [a|readOk|choice writeOk itemId|choice removeOk];
    simpl.
  - split; [apply append_capped, Hst | exact Hsh].
  - split; [exact Hst|]. unfold loadHistory.
    destruct readOk; simpl; [|exact Hsh].
    unfold stored in Hst. destruct (history (storage (shared s))); assumption.
  - pose proof (List.filter_length_le (other_id itemId) (shown s)).
    destruct choice; simpl; [auto|].
    destruct writeOk; simpl; split; auto; unfold stored; simpl; lia.
  - destruct choice; simpl; [auto|].
    destruct removeOk; simpl; split; auto; unfold stored; simpl; lia.
Qed.

(** X26: the cap of 20 holds under every operation on the history:
    through any sequence of appends, reloads, deletions and clearings, with
    any storage failures, neither the stored list nor the displayed one
    exceeds 20 entries. *)
Theorem history_events_keep_cap (l : list HistoryEvent) (s : HistoryState) :
  (length (stored (shared s)) <= 20)%nat ->
  (length (shown s) <= 20)%nat ->
  (length (stored (shared (history_steps l s))) <= 20)%nat /\
  (length (shown (history_steps l s)) <= 20)%nat.
Proof.
  intros H1 H2. assert (Hs := conj H1 H2). clear H1 H2.
  revert s Hs. induction l as [|e l IH]; intros s Hs; simpl; [exact Hs|].
  apply IH, history_step_capped, Hs.
Qed.

End HistoryScreens.

Section CleanedTextInUse.
Import JS OCR Camera.
Local Arguments utf16 : simpl never.

(** X4: a text that comes out of [recognizeText] never contains the
    full-width question mark or equals sign, which the clean-up removes;
    on such a text the periodic filter comes down to: longer than 10
    characters, with a [?], a [=] or a digit. *)
Theorem recognized_text_never_full_width (raw : list N) :
  let t := cleanText raw in
  ~ In 0xFF1F t /\ ~ In 0xFF1D t /\
  looksLikeQuestion t =
    (10 <? length t)%nat &&
    (includes t [ch "?"] || includes t [ch "="] || test_digits t).
Proof.
  intros t.
  assert (Forall (fun c => allowed c = true) t) as Hall
    by apply cleanText_allowed.
  assert (includes t [0xFF1F] = false) as Hq
    by (apply not_allowed_not_included; [exact Hall | reflexivity]).
  assert (includes t [0xFF1D] = false) as He
    by (apply not_allowed_not_included; [exact Hall | reflexivity]).
  split; [|split].
  - intros Hin. apply includes_char in Hin. congruence.
  - intros Hin. apply includes_char in Hin. congruence.
  - unfold looksLikeQuestion. rewrite Hq, He.
    destruct t as [|c t']; [reflexivity|]. simpl truthy.
    rewrite !orb_false_r. reflexivity.
Qed.

(** X5: when the engine reads only whitespace and characters outside the
    allowed set, the recognised text is empty: a manual capture shows the
    no-text alert and a periodic attempt does nothing visible, and neither
    calls the Completion Client. *)
Theorem blank_reading_is_not_analysed (raw : list N) (conf : spec_float)
    (w : World) (seen : Seen) (st : State) :
  Forall (fun c => isWhiteSpace c = true \/ in_class c = false) raw ->
  photo w = PhotoUri ->
  recognized w = recognizeText (RecognizeData raw conf) ->
  let manual := run w (Manual.takePictureAndAnalyze true false st) in
  let periodic := run w (processCurrentFrame seen st) in
  trace manual = [Alert Manual.TITLE_ERROR Manual.MSG_NO_TEXT] /\
  sent manual = [] /\
  trace periodic = [] /\
  sent periodic = [].
Proof.
  intros Hblank Hp Hr. cbv zeta.
  assert (recognized w =
          Returned {| text := [];
                      confidence := Math_max lit_0_1 (div conf lit_100) |})
    as Hrec by (rewrite Hr; simpl; rewrite (cleanText_blank raw Hblank);
                reflexivity).
  split; [|split].
  - destruct (manual_ends w st) as [e H|H|e H H'|o H H' Hs|o e H H' Hs _|o ai H H' Hs _];
      simpl; try congruence;
      rewrite Hrec in H'; injection H' as <-; discriminate.
  - destruct (manual_ends w st) as [e H|H|e H H'|o H H' Hs|o e H H' Hs _|o ai H H' Hs _];
      simpl; try congruence;
      rewrite Hrec in H'; injection H' as <-; discriminate.
  - destruct (processCurrentFrame_either seen st) as [-> | ->]; simpl;
      [split; reflexivity|].
    rewrite Hp. simpl. rewrite Hrec. simpl. split; reflexivity.
Qed.

End CleanedTextInUse.

Section FurtherWitnesses.
Import JS Samples MoreSamples.

Lemma blank_check (raw : list N) :
  forallb (fun c => isWhiteSpace c || negb (OCR.in_class c)) raw = true ->
  Forall (fun c => isWhiteSpace c = true \/ OCR.in_class c = false) raw.
Proof.
  induction raw as [|c raw IH]; simpl; [constructor|].
  rewrite andb_true_iff, orb_true_iff, negb_true_iff.
  intros [Hc Hraw]. constructor; [exact Hc | apply IH, Hraw].
Qed.

Lemma analyze_without_choices_throws_witness :
  exists m,
    OpenAI.analyzeText OpenAI.sampleEngine (answering 200 bodyNoChoices)
      key question = Threw (TypeError m).
Proof.
  assert (key <> []) as Hkey by (vm_compute; discriminate).
  assert (JSON_parse bodyNoChoices = Some (parsedOf bodyNoChoices)) as Hparse
    by (vm_compute; reflexivity).
  assert (OpenAI.field (parsedOf bodyNoChoices) "choices" = JArr [] \/
          OpenAI.field (parsedOf bodyNoChoices) "choices" = JNull \/
          OpenAI.field (parsedOf bodyNoChoices) "choices" = JUndefined)
    as Hchoices by (left; vm_compute; reflexivity).
  exact (analyze_without_choices_throws OpenAI.sampleEngine
           (answering 200 bodyNoChoices) key question 200 bodyNoChoices
           (parsedOf bodyNoChoices) Hkey eq_refl eq_refl Hparse Hchoices).
Defined.

Lemma blank_reading_is_not_analysed_witness :
  Camera.trace (Camera.run (reading blankRaw)
                  (Manual.takePictureAndAnalyze true false realtimeOn)) =
    [Camera.Alert Manual.TITLE_ERROR Manual.MSG_NO_TEXT].
Proof.
  assert (Forall (fun c => isWhiteSpace c = true \/ OCR.in_class c = false)
            blankRaw) as Hblank
    by (apply blank_check; vm_compute; reflexivity).
  exact (proj1 (blank_reading_is_not_analysed blankRaw conf87
                  (reading blankRaw) seenReady realtimeOn
                  Hblank eq_refl eq_refl)).
Defined.

Lemma manual_forwards_iff_two_chars_witness :
  Camera.sent (Camera.run (reading question)
                 (Manual.takePictureAndAnalyze true false realtimeOn)) =
    if (2 <=? length (OCR.text cleanedQuestion))%nat
    then [OCR.text cleanedQuestion] else [].
Proof.
  exact (manual_forwards_iff_two_chars (reading question) realtimeOn
           cleanedQuestion eq_refl eq_refl).
Defined.

Lemma periodic_attempt_releases_guard_witness :
  Camera.processingRef
    (Camera.final (Camera.run (attempt 429 quotaBody)
                     (Camera.processCurrentFrame seenReady realtimeOn)))
  = false.
Proof.
  exact (proj1 (periodic_attempt_releases_guard seenReady realtimeOn
                  (attempt 429 quotaBody) eq_refl)).
Defined.

Lemma periodic_result_stops_periodic_mode_witness :
  Camera.realtimeEnabled
    (Camera.final (Camera.run (attempt 200 bodyProse)
                     (Camera.processCurrentFrame seenReady realtimeOn)))
  = false.
Proof.
  assert (2000 <= Camera.now seenReady -
                  Camera.capturedLastProcessTime seenReady)%Z as Hgap
    by (simpl; lia).
  assert (Camera.looksLikeQuestion (OCR.text cleanedQuestion) = true) as Hlook
    by (vm_compute; reflexivity).
  assert (Camera.analysed (attempt 200 bodyProse) (OCR.text cleanedQuestion) =
          Returned (OpenAI.raw_answer (JStr (utf16 "The answer is 42."))))
    as Han by (vm_compute; reflexivity).
  exact (proj1 (proj2 (proj2
           (periodic_result_stops_periodic_mode seenReady realtimeOn
              (attempt 200 bodyProse) cleanedQuestion
              (OpenAI.raw_answer (JStr (utf16 "The answer is 42.")))
              eq_refl eq_refl Hgap eq_refl eq_refl Hlook Han)))).
Defined.

Lemma periodic_recognition_error_is_silent_witness :
  Camera.trace (Camera.run (recognising OCR.RecognizeRejects)
                  (Camera.processCurrentFrame seenReady realtimeOn)) =
    [Camera.ConsoleError (Error OCR.MSG_RECOGNITION_FAILED)].
Proof.
  assert (2000 <= Camera.now seenReady -
                  Camera.capturedLastProcessTime seenReady)%Z as Hgap
    by (simpl; lia).
  exact (proj1 (periodic_recognition_error_is_silent seenReady realtimeOn
                  (recognising OCR.RecognizeRejects) OCR.RecognizeRejects
                  (Error OCR.MSG_RECOGNITION_FAILED)
                  eq_refl eq_refl Hgap eq_refl eq_refl eq_refl)).
Defined.

Lemma recognize_outcomes_witness :
  exists s' out,
    OCRService.recognizeText OCRService.CreateRejects
      (OCRService.Data question conf87) OCRService.fresh = Some (s', out) /\
    out <> Threw (Error OCR.MSG_NO_WORKER).
Proof.
  assert (OCRService.calls someCalls OCRService.fresh =
          Some OCRService.fresh) as Hcalls by (vm_compute; reflexivity).
  destruct (recognize_outcomes someCalls OCRService.fresh
              OCRService.CreateRejects (OCRService.Data question conf87)
              Hcalls) as (s' & out & Hrec & Hno & _).
  exists s', out. split; assumption.
Defined.

Lemma service_recovers_witness :
  exists s',
    OCRService.recognizeText (OCRService.Created 3)
      (OCRService.Data question conf87) OCRService.fresh =
      Some (s', Returned cleanedQuestion).
Proof.
  assert (OCRService.calls someCalls OCRService.fresh =
          Some OCRService.fresh) as Hcalls by (vm_compute; reflexivity).
  destruct (service_recovers someCalls OCRService.fresh 3 question conf87
              Hcalls) as (s' & Hrec & _).
  exists s'. exact Hrec.
Defined.

Lemma save_rejects_invalid_key_witness :
  fst (App.saveApiKey true
         (App.typeApiKey (utf16 " sk-abc") App.initialSettings) emptyShared)
  = emptyShared.
Proof.
  assert (startsWith
            (App.apiKey (App.typeApiKey (utf16 " sk-abc") App.initialSettings))
            (utf16 "sk-") = false) as Hprefix by (vm_compute; reflexivity).
  exact (proj1 (save_rejects_invalid_key true
                  (App.typeApiKey (utf16 " sk-abc") App.initialSettings)
                  emptyShared (or_intror (or_introl Hprefix)))).
Defined.

Lemma saved_key_enables_camera_witness :
  let saved :=
    fst (App.saveApiKey true
           (App.typeApiKey (utf16 "sk-abc ") App.initialSettings)
           emptyShared) in
  let loaded := Screens.loadApiKey true saved in
  Screens.hasValidApiKey (snd loaded) (fst loaded) = true.
Proof.
  assert (startsWith (utf16 "sk-abc ") (utf16 "sk-") = true) as Hprefix
    by (vm_compute; reflexivity).
  exact (proj2 (proj2 (saved_key_enables_camera (utf16 "sk-abc ")
                         App.initialSettings emptyShared Hprefix))).
Defined.

Lemma appended_result_heads_history_witness :
  Screens.loadHistory true
    (App.append (App.appends twenty emptyShared) (sampleAppend 21)) [] =
  App.item (sampleAppend 21)
    :: take 19 (App.stored (App.appends twenty emptyShared)).
Proof.
  exact (appended_result_heads_history (sampleAppend 21)
           (App.appends twenty emptyShared) [] eq_refl eq_refl).
Defined.

Lemma history_events_keep_cap_witness :
  (length (App.stored
             (Screens.shared (Screens.history_steps someEvents emptyHistory)))
   <= 20)%nat /\
  (length (Screens.shown (Screens.history_steps someEvents emptyHistory))
   <= 20)%nat.
Proof.
  assert (length (App.stored (Screens.shared emptyHistory)) <= 20)%nat as H1
    by (simpl; lia).
  assert (length (Screens.shown emptyHistory) <= 20)%nat as H2
    by (simpl; lia).
  exact (history_events_keep_cap someEvents emptyHistory H1 H2).
Defined.

(** What [someEvents] leaves stored: the deletion writes the list loaded
    before the twenty-first result, without the seventh entry, so the
    twenty-first result is gone and the first, evicted meanwhile, is
    back. *)
Lemma history_events_example :
  map App.id
    (App.stored (Screens.shared (Screens.history_steps someEvents emptyHistory)))
  = map digits [20; 19; 18; 17; 16; 15; 14; 13; 12; 11; 10; 9; 8; 6; 5; 4;
                3; 2; 1].
Proof. vm_compute. reflexivity. Qed.

End FurtherWitnesses.
